(** * EduBot: context assembly, budget trimming and feedback correlation

    A shallow embedding of [src/edubot/bot.py].  Python strings are
    [string]s, a [datetime] is the number of microseconds on its time
    line (a [Z]), a Python [int] is a [Z].  The database behind SQLAlchemy is
    a record of four tables, each a list of rows in storage order.  A
    helper that can raise returns [option], [None] being the exception; a
    public method returns an [outcome], which keeps the committed database
    on both ways out. *)

From Stdlib Require Import ZArith QArith Qround List String Ascii Bool Arith Lia.
From Stdlib Require Import DecimalString Sorted.
Import ListNotations.
Open Scope string_scope.
Open Scope Z_scope.

(** ** Constants of the module (bot.py, lines 22-41) *)

Definition MAX_GPT_TOKENS : Z := 7200.

Definition WEB_SUMMARY_PROMPT : string :=
  "Your input is scraped text from a website. Your job is to summarise the text and post it to a chatroom.
" ++
  "Long-form text includes pages such as news articles and blog posts.
" ++
  "If the page doesn't contain long-form text return the phrase 'NO CONTENT' and nothing else.
" ++
  "If the page mentions any variation of 'requiring javascript', or 'enable javascript' you should also return 'NO CONTENT' and nothing else.
" ++
  "If the page DOES contain long-form text return a brief 2 sentence summary of the text content. " ++
  "This summary will then be sent to users.
".

Definition GPT_SETTINGS_model : string := "gpt-4".

(** The maximum allowed size of images in megabytes (line 28). *)
Definition MAX_IMAGE_SIZE_MB : Z := 50.

(** ** Python string primitives *)

Module Py.

(** [s.split(sep)] for a one-character separator: every occurrence of the
    separator cuts, so two separators in a row give an empty piece and the
    empty string gives one empty piece. *)
Fixpoint split (sep : ascii) (s : string) : list string :=
  match s with
  | EmptyString => [EmptyString]
  | String c rest =>
      if Ascii.eqb c sep then EmptyString :: split sep rest
      else match split sep rest with
           | [] => [String c EmptyString]
           | w :: ws => String c w :: ws
           end
  end.

(** [round(x)] on a float that holds the rational [x] exactly: the nearest
    integer, a tie going to the even neighbour. *)
Definition round (x : Q) : Z :=
  let f := Qfloor x in
  match Qcompare (x - inject_Z f)%Q (1 # 2) with
  | Lt => f
  | Gt => f + 1
  | Eq => if Z.even f then f else f + 1
  end.

(** Whitespace as [str.isspace] sees it, on the code points a [string]
    holds (0 to 255). *)
Definition isspace (c : ascii) : bool :=
  let n := nat_of_ascii c in
  ((9 <=? n) && (n <=? 13) || (28 <=? n) && (n <=? 32)
   || (n =? 133) || (n =? 160))%nat.

(** [s.lstrip()] *)
Fixpoint lstrip (s : string) : string :=
  match s with
  | EmptyString => EmptyString
  | String c rest => if isspace c then lstrip rest else s
  end.

(** [s.rstrip()] and [s.strip()] *)
Fixpoint rstrip (s : string) : string :=
  match s with
  | EmptyString => EmptyString
  | String c rest =>
      match rstrip rest with
      | EmptyString => if isspace c then EmptyString else String c EmptyString
      | r => String c r
      end
  end.

Definition strip (s : string) : string := rstrip (lstrip s).

(** [s.replace(old, '')] for a non-empty [old]: a scan from the left that
    drops each occurrence it meets and resumes after it.  [skip] counts the
    characters of the occurrence still to drop. *)
Fixpoint remove_all_from (old s : string) (skip : nat) : string :=
  match s with
  | EmptyString => EmptyString
  | String c rest =>
      match skip with
      | S k => remove_all_from old rest k
      | O =>
          if String.prefix old s
          then remove_all_from old rest (String.length old - 1)
          else String c (remove_all_from old rest 0)
      end
  end.

Definition remove_all (old s : string) : string := remove_all_from old s 0.

(** [sub in s] *)
Fixpoint contains (sub s : string) : bool :=
  String.prefix sub s ||
  match s with
  | EmptyString => false
  | String _ rest => contains sub rest
  end.

(** [s.upper()] on the letters a to z.  The other code points a [string]
    holds either stay or become code points that are no letter of
    'NO CONTENT', so the one test made on an upper-cased string below reads
    the same. *)
Definition upper_char (c : ascii) : ascii :=
  let n := nat_of_ascii c in
  if ((97 <=? n) && (n <=? 122))%nat then ascii_of_nat (n - 32) else c.

Fixpoint upper (s : string) : string :=
  match s with
  | EmptyString => EmptyString
  | String c rest => String (upper_char c) (upper rest)
  end.

(** [s[:-k]] for [k > 0]: all but the last [k] characters, the empty string
    when there are no more than [k]. *)
Definition drop_last (k : nat) (s : string) : string :=
  substring 0 (String.length s - k) s.

(** [l.remove(x)]: the first element equal to [x] goes. *)
Fixpoint list_remove {A} (eqb : A -> A -> bool) (x : A) (l : list A) : list A :=
  match l with
  | [] => []
  | y :: r => if eqb y x then r else y :: list_remove eqb x r
  end.

End Py.

(** ** Token estimator (bot.py, lines 49-61)

    [len(text) / 4] and [len(text.split(" ")) * 0.75] are floats.  Both are a
    multiple of a quarter and their half sum a multiple of an eighth, far
    below 2^53 for any string that fits in memory, so every float operation
    of the function is exact and the rationals below are the values the
    floats hold. *)

Definition estimate_tokens (text : string) : Z :=
  let est1 : Q := (inject_Z (Z.of_nat (String.length text)) / 4)%Q in
  let est2 : Q := (inject_Z (Z.of_nat (List.length (Py.split " " text))) * 0.75)%Q in
  Py.round ((est1 + est2) / 2)%Q.

(** The estimate as the specification words it: the second estimate counts
    the words that whitespace delimits ([len(text.split())]). *)
Fixpoint count_words (after_space : bool) (s : string) : nat :=
  match s with
  | EmptyString => O
  | String c rest =>
      if Py.isspace c then count_words true rest
      else ((if after_space then 1 else 0) + count_words false rest)%nat
  end.

Definition whitespace_word_count (text : string) : nat := count_words true text.

Definition spec_estimate (text : string) : Z :=
  let est1 : Q := (inject_Z (Z.of_nat (String.length text)) / 4)%Q in
  let est2 : Q := (inject_Z (Z.of_nat (whitespace_word_count text)) * 0.75)%Q in
  Py.round ((est1 + est2) / 2)%Q.

(** Nearest integer to [num / den], ties to even, in integer arithmetic. *)
Definition round_half_even_div (num den : Z) : Z :=
  let q := num / den in
  let r := num mod den in
  if 2 * r <? den then q
  else if den <? 2 * r then q + 1
  else if Z.even q then q else q + 1.

Fixpoint count_char (c : ascii) (s : string) : nat :=
  match s with
  | EmptyString => O
  | String d rest => ((if Ascii.eqb d c then 1 else 0) + count_char c rest)%nat
  end.

Fixpoint string_forallb (p : ascii -> bool) (s : string) : bool :=
  match s with
  | EmptyString => true
  | String c rest => p c && string_forallb p rest
  end.

(** The words of [text] are separated by one space each and [text] holds no
    other whitespace. *)
Definition single_spaced (text : string) : bool :=
  forallb (fun w => negb (String.eqb w EmptyString) && string_forallb (fun c => negb (Py.isspace c)) w)
          (Py.split " " text).

(** ** The database (module [edubot.sql]) *)

(** Modelled from the spec: the module [edubot.sql] is not part of the
    sources.  Section 3 of the specification gives the four tables: a Bot is
    [{username, platform}] with a numeric id, a Thread is
    [{thread_name, platform}], a Message is
    [{thread_id, username, text, timestamp}] and a Completion is
    [{bot_id, text, reply_to_message_id, score}].  The column names are the
    ones bot.py uses. *)
Record Bot := {
  Bot_id : Z;
  Bot_username : string;
  Bot_platform : string
}.

Record Thread := {
  Thread_id : Z;
  Thread_thread_name : string;
  Thread_platform : string
}.

Record Message := {
  Message_id : Z;
  Message_thread : Z;
  Message_username : string;
  Message_message : string;
  Message_time : Z
}.

Record Completion := {
  Completion_id : Z;
  Completion_bot : Z;
  Completion_message : string;
  Completion_reply_to : Z;
  Completion_score : Z
}.

(** The committed content of the database.  Every [with Session()] block
    of bot.py opens a session of its own, which reads committed rows only. *)
Record DB := {
  bots : list Bot;
  threads : list Thread;
  messages : list Message;
  completions : list Completion
}.

(** The key an auto-incremented primary key column gives the next row. *)
Definition next_id (ids : list Z) : Z := 1 + fold_right Z.max 0 ids.

(** Modelled from the spec: the module [edubot.types] is not part of the
    sources.  A [MessageInfo] is a dict with the keys [username], [message]
    and [time]; bot.py adds the key [thread] to the dicts it turns into rows
    (lines 346-347), so the key is optional here.  A [CompletionInfo] is a
    dict with the keys [message] and [time]. *)
Record MessageInfo := {
  mi_username : string;
  mi_message : string;
  mi_time : Z;
  mi_thread : option Z
}.

Record CompletionInfo := {
  ci_message : string;
  ci_time : Z
}.

(** Equality of two dicts: the same keys with equal values. *)
Definition MessageInfo_eqb (a b : MessageInfo) : bool :=
  String.eqb (mi_username a) (mi_username b)
  && String.eqb (mi_message a) (mi_message b)
  && Z.eqb (mi_time a) (mi_time b)
  && match mi_thread a, mi_thread b with
     | None, None => true
     | Some x, Some y => Z.eqb x y
     | _, _ => false
     end.

(** [datetime.timedelta(minutes=m, seconds=s)], in microseconds. *)
Definition timedelta (minutes seconds : Z) : Z := (minutes * 60 + seconds) * 1000000.

(** What a call leaves behind: the value it returns, or the exception it
    raises, with the committed database in both cases. *)
Inductive outcome (A : Type) : Type :=
| Returns (a : A) (db : DB)
| Raises (db : DB).
Arguments Returns {A} a db.
Arguments Raises {A} db.

(** An entry of the list sent to the language model. *)
Record gpt_msg := {
  role : string;
  content : string
}.

(** Modelled from the spec: an [ImageInfo] of [edubot.types] is a dict
    with the keys [image], [username] and [time].  What an image is is left
    to the imaging library. *)
Record ImageInfo (Image : Type) := {
  ii_image : Image;
  ii_username : string;
  ii_time : Z
}.
Arguments ii_image {Image} _.
Arguments ii_username {Image} _.
Arguments ii_time {Image} _.

(** What the stream of artifacts of the image service hands out next: an
    artifact, of the type image or of another type, with its bytes, or an
    exception. *)
Inductive artifact_step : Type :=
| Artifact (is_image : bool) (binary : string)
| Failure.

(** ** class EduBot *)

Section EduBot.

(** The fields [__init__] sets (lines 78-85), the configured key of the
    language model and the collaborators a call reaches out to. *)
Variable username : string.
Variable platform : string.
Variable personality : string.
Variable bot_pk : Z.
Variable OPENAI_KEY : string.

(** [openai.ChatCompletion.create]: the text of the first choice, or [None]
    when the call raises [OpenAIError]. *)
Variable chat_completion : list gpt_msg -> option string.
(** [trafilatura.fetch_url] and [trafilatura.extract]. *)
Variable fetch_url : string -> option string.
Variable extract : string -> option string.
(** [datetime.datetime.now().year] *)
Variable now_year : Z.

(** [__get_bot] (lines 92-106) *)
Definition get_bot (db : DB) (name : string) : option Bot :=
  find (fun b => String.eqb (Bot_username b) name && String.eqb (Bot_platform b) platform)
       (bots db).

(** [__get_message] (lines 119-134).  The statement selects from [Message]
    and filters on [Thread.platform] without joining the two tables, so its
    rows are those of the product of the two tables. *)
Definition get_message (db : DB) (msg_info : MessageInfo) : option Message :=
  hd_error
    (flat_map
       (fun m =>
          flat_map
            (fun t =>
               if String.eqb (Message_username m) (mi_username msg_info)
                  && String.eqb (Message_message m) (mi_message msg_info)
                  && Z.eqb (Message_time m) (mi_time msg_info)
                  && String.eqb (Thread_platform t) platform
               then [m] else [])
            (threads db))
       (messages db)).

(** [__get_thread] (lines 136-150) *)
Definition get_thread (db : DB) (thread_name : string) : option Thread :=
  find (fun t => String.eqb (Thread_thread_name t) thread_name
                 && String.eqb (Thread_platform t) platform)
       (threads db).

(** [session.add(Thread(...)); session.commit()] *)
Definition insert_thread (db : DB) (thread_name : string) : Thread * DB :=
  let t := {| Thread_id := next_id (map Thread_id (threads db));
              Thread_thread_name := thread_name;
              Thread_platform := platform |} in
  (t, {| bots := bots db; threads := (threads db ++ [t])%list;
         messages := messages db; completions := completions db |}).

(** The thread of a call, created when it is not there (lines 295-301,
    255-259 and 513-517). *)
Definition ensure_thread (db : DB) (thread_name : string) : Thread * DB :=
  match get_thread db thread_name with
  | Some t => (t, db)
  | None => insert_thread db thread_name
  end.

(** [session.add] of a [Message] row for each pending dict, in order, then
    [session.commit()]. *)
Fixpoint commit_messages (db : DB) (rows : list MessageInfo) : DB :=
  match rows with
  | [] => db
  | row :: rest =>
      let m := {| Message_id := next_id (map Message_id (messages db));
                  Message_thread := match mi_thread row with Some t => t | None => 0 end;
                  Message_username := mi_username row;
                  Message_message := mi_message row;
                  Message_time := mi_time row |} in
      commit_messages
        {| bots := bots db; threads := threads db;
           messages := (messages db ++ [m])%list; completions := completions db |}
        rest
  end.

(** [__add_completion] (lines 152-167); [None] when [__get_message] finds
    no row and [.id] raises. *)
Definition add_completion (db : DB) (completion : string) (reply_to : MessageInfo)
  : option DB :=
  match get_message db reply_to with
  | None => None
  | Some m =>
      let new_comp := {| Completion_id := next_id (map Completion_id (completions db));
                         Completion_bot := bot_pk;
                         Completion_message := completion;
                         Completion_reply_to := Message_id m;
                         Completion_score := 0 |} in
      Some {| bots := bots db; threads := threads db; messages := messages db;
              completions := (completions db ++ [new_comp])%list |}
  end.

(** *** [__format_context] (lines 169-222) *)

Definition format_entry (msg : MessageInfo) : gpt_msg :=
  {| role := if String.eqb (mi_username msg) username then "assistant" else "user";
     content := mi_username msg ++ ": " ++ mi_message msg |}.

(** The [for] loop of lines 186-195. *)
Definition format_entries (context : list MessageInfo) : list gpt_msg * Z :=
  fold_left
    (fun (acc : list gpt_msg * Z) msg =>
       let e := format_entry msg in
       ((fst acc ++ [e])%list, snd acc + estimate_tokens (content e)))
    context ([], 0).

(** The [while] loop of lines 197-198; [pop(0)] on an empty list raises. *)
Fixpoint trim (gpt_context : list gpt_msg) (token_count : Z) : option (list gpt_msg) :=
  if MAX_GPT_TOKENS <? token_count then
    match gpt_context with
    | [] => None
    | oldest :: rest => trim rest (token_count - estimate_tokens (content oldest))
    end
  else Some gpt_context.

Definition system_messages (personality_override : option string) : list gpt_msg :=
  let personality :=
    match personality_override with
    | Some p => if String.eqb p EmptyString then personality else p
    | None => personality
    end in
  [ {| role := "system"; content := "You are a chatbot named " ++ username |};
    {| role := "system"; content := "Your personality is: " ++ personality |};
    {| role := "system";
       content := "You should pretend you can view images. "
         ++ "Descriptions of images posted to the chat will be saved to the database. "
         ++ "These descriptions are in the form: '*A picture of ____'. "
         ++ "When you spot these descriptions you should pretend you can see the image, using the description. "
         ++ "Do not mention that you cannot see the image, or that you are instead viewing a description of"
         ++ "the image. Just pretend like you can see it." |};
    {| role := "system";
       content := "The current year is: " ++ NilZero.string_of_int (Z.to_int now_year) |};
    {| role := "system";
       content := "You use the language model " ++ GPT_SETTINGS_model |} ].

Definition format_context (context : list MessageInfo) (personality_override : option string)
  : option (list gpt_msg) :=
  let (gpt_context, token_count) := format_entries context in
  match trim gpt_context token_count with
  | None => None
  | Some kept => Some (system_messages personality_override ++ kept)%list
  end.

(** *** [gpt_answer], merging and persisting (lines 294-351) *)

Definition row_as_msg_info (existing_msg : Message) : MessageInfo :=
  {| mi_username := Message_username existing_msg;
     mi_message := Message_message existing_msg;
     mi_time := Message_time existing_msg;
     mi_thread := None |}.

(** Lines 305-318.  The rows come in storage order: the statement has no
    ORDER BY. *)
Definition existing_context (db : DB) (thread : Thread) (new_context : list MessageInfo)
    (first_time : Z) : list MessageInfo :=
  filter (fun info => negb (existsb (MessageInfo_eqb info) new_context))
    (map row_as_msg_info
       (filter (fun m => Z.eqb (Message_thread m) (Thread_id thread)
                         && (first_time <? Message_time m))
               (messages db))).

(** Lines 326-330. *)
Definition check (new_context : list MessageInfo) (index : nat) (msg extra_msg : MessageInfo)
  : bool :=
  let check := mi_time extra_msg <? mi_time msg in
  if (0 <? index)%nat then
    check && match nth_error new_context (index - 1) with
             | Some prev => mi_time prev <? mi_time extra_msg
             | None => false
             end
  else check.

(** The inner [for] loop, lines 325-334.  The iterator of a Python list is a
    position in the list as it is now: it hands out the element at [pos]
    and moves on by one, and stops when [pos] is past the end.  The body
    removes from the very list it walks.  [fuel] bounds the number of
    rounds; the length of the list is enough. *)
Fixpoint scan_pool (fuel pos : nat) (new_context : list MessageInfo) (index : nat)
    (msg : MessageInfo) (existing complete : list MessageInfo)
  : list MessageInfo * list MessageInfo :=
  match fuel with
  | O => (existing, complete)
  | S fuel' =>
      match nth_error existing pos with
      | None => (existing, complete)
      | Some extra_msg =>
          if check new_context index msg extra_msg
          then scan_pool fuel' (S pos) new_context index msg
                 (Py.list_remove MessageInfo_eqb extra_msg existing)
                 (complete ++ [extra_msg])%list
          else scan_pool fuel' (S pos) new_context index msg existing complete
      end
  end.

(** Lines 338-349 for one entry of the window: the dict as the loop leaves
    it and the rows it adds to the session.  [db] is the committed database:
    [__get_message] and [__get_bot] read it in sessions of their own, and
    the rows this loop adds are committed after the loop only. *)
Definition persist_entry (db : DB) (thread : Thread) (msg : MessageInfo)
  : MessageInfo * list MessageInfo :=
  match get_message db msg with
  | Some _ => (msg, [])
  | None =>
      match get_bot db (mi_username msg) with
      | Some _ => (msg, [])
      | None =>
          let row := {| mi_username := mi_username msg;
                        mi_message := mi_message msg;
                        mi_time := mi_time msg;
                        mi_thread := Some (Thread_id thread) |} in
          (row, [row])
      end
  end.

(** The state the outer loop carries: the pool, the merged context, the
    rows added to the session and the window with the keys the loop set.
    The merged context holds the dicts of the window themselves, so an entry
    shows the key [thread] once the loop has set it. *)
Record merge_state := {
  st_existing : list MessageInfo;
  st_complete : list MessageInfo;
  st_added : list MessageInfo;
  st_window : list MessageInfo
}.

(** One round of the outer loop, lines 323-349. *)
Definition merge_body (db : DB) (thread : Thread) (new_context : list MessageInfo)
    (st : merge_state) (im : nat * MessageInfo) : merge_state :=
  let (index, msg) := im in
  let (existing, complete) :=
    scan_pool (List.length (st_existing st)) 0 new_context index msg
              (st_existing st) (st_complete st) in
  let (msg', rows) := persist_entry db thread msg in
  {| st_existing := existing;
     st_complete := (complete ++ [msg'])%list;
     st_added := (st_added st ++ rows)%list;
     st_window := (st_window st ++ [msg'])%list |}.

Definition enumerate {A} (l : list A) : list (nat * A) :=
  combine (seq 0 (List.length l)) l.

Definition merge_loop (db : DB) (thread : Thread) (new_context existing : list MessageInfo)
  : merge_state :=
  fold_left (merge_body db thread new_context) (enumerate new_context)
    {| st_existing := existing; st_complete := []; st_added := []; st_window := [] |}.

(** The [with Session()] block of [gpt_answer]: the merged context and the
    window as the block leaves it.  An empty window raises at
    [new_context[0]]. *)
Definition merge_and_persist (db : DB) (new_context : list MessageInfo)
    (thread_name : string) : outcome (list MessageInfo * list MessageInfo) :=
  let (thread, db1) := ensure_thread db thread_name in
  match new_context with
  | [] => Raises db1
  | first :: _ =>
      let st := merge_loop db1 thread new_context
                  (existing_context db1 thread new_context (mi_time first)) in
      Returns (st_complete st, st_window st) (commit_messages db1 (st_added st))
  end.

(** Line 369. *)
Definition strip_username (completion : string) : string :=
  Py.lstrip (Py.remove_all (username ++ ": ") completion).

(** [gpt_answer] (lines 274-375).  A key that is not configured is the
    empty string; [new_context[-1]] is the last entry of the window. *)
Definition gpt_answer (db : DB) (new_context : list MessageInfo) (thread_name : string)
    (personality_override : option string) : outcome string :=
  if String.eqb OPENAI_KEY EmptyString then Raises db
  else
    match merge_and_persist db new_context thread_name with
    | Raises db1 => Raises db1
    | Returns (complete_context, new_context') db1 =>
        match format_context complete_context personality_override with
        | None => Raises db1
        | Some gpt_context =>
            match chat_completion gpt_context with
            | None => Returns EmptyString db1
            | Some response =>
                let completion := strip_username response in
                match rev new_context' with
                | [] => Raises db1
                | reply_to :: _ =>
                    match add_completion db1 completion reply_to with
                    | None => Raises db1
                    | Some db2 => Returns completion db2
                    end
                end
            end
        end
    end.

(** *** [change_completion_score] (lines 377-427) *)

(** The rows of the SELECT of lines 400-410: [Completion] joined along its
    foreign keys to its [Bot] and to the [Message] it replies to, that
    message joined to its [Thread], under the five conditions. *)
Definition matching_completions (db : DB) (completion : CompletionInfo)
    (thread_name : string) : list Completion :=
  let delta := ci_time completion - timedelta 1 30 in
  flat_map
    (fun c =>
       flat_map
         (fun b =>
            flat_map
              (fun m =>
                 flat_map
                   (fun t =>
                      if String.eqb (Completion_message c) (ci_message completion)
                         && String.eqb (Thread_thread_name t) thread_name
                         && Z.eqb (Bot_id b) bot_pk
                         && (delta <? Message_time m)
                         && (Message_time m <? ci_time completion)
                      then [c] else [])
                   (filter (fun t => Z.eqb (Message_thread m) (Thread_id t)) (threads db)))
              (filter (fun m => Z.eqb (Completion_reply_to c) (Message_id m)) (messages db)))
         (filter (fun b => Z.eqb (Completion_bot c) (Bot_id b)) (bots db)))
    (completions db).

(** [order_by(desc(Completion.id))] and [fetchone()]: the row with the
    largest id. *)
Definition first_by_desc_id (rows : list Completion) : option Completion :=
  fold_left
    (fun best c =>
       match best with
       | None => Some c
       | Some b => if Completion_id b <? Completion_id c then Some c else Some b
       end)
    rows None.

(** Lines 422-425: the new score goes to the row of that primary key. *)
Definition update_score (db : DB) (row : Completion) (score : Z) : DB :=
  {| bots := bots db; threads := threads db; messages := messages db;
     completions :=
       map (fun c =>
              if Z.eqb (Completion_id c) (Completion_id row)
              then {| Completion_id := Completion_id c;
                      Completion_bot := Completion_bot c;
                      Completion_message := Completion_message c;
                      Completion_reply_to := Completion_reply_to c;
                      Completion_score := score |}
              else c)
           (completions db) |}.

Definition change_completion_score (db : DB) (offset : Z) (completion : CompletionInfo)
    (thread_name : string) : DB :=
  match first_by_desc_id (matching_completions db completion thread_name) with
  | None => db
  | Some completion_row =>
      update_score db completion_row (Completion_score completion_row + offset)
  end.

(** *** [summarise_url] (lines 465-530) *)

(** The [while] loop of lines 489-490; the length of the text is fuel
    enough. *)
Fixpoint truncate_text (fuel : nat) (text : string) : string :=
  match fuel with
  | O => text
  | S fuel' =>
      if MAX_GPT_TOKENS <? estimate_tokens text
      then truncate_text fuel' (Py.drop_last 100 text)
      else text
  end.

Definition summarise_url (db : DB) (url : string) (msg : MessageInfo) (thread_name : string)
  : outcome (option string) :=
  match fetch_url url with
  | None => Returns None db
  | Some resp =>
      if String.eqb resp EmptyString then Returns None db
      else
        match extract resp with
        | None => Returns None db
        | Some text =>
            let text := truncate_text (String.length text) text in
            let gpt_context :=
              [ {| role := "system"; content := WEB_SUMMARY_PROMPT |};
                {| role := "user"; content := text |} ] in
            match chat_completion gpt_context with
            | None => Returns None db
            | Some completion_text =>
                if Py.contains "NO CONTENT" (Py.upper completion_text)
                then Returns None db
                else
                  let completion_text := Py.strip completion_text in
                  let (thread, db1) := ensure_thread db thread_name in
                  let (msg', db2) :=
                    match get_message db1 msg with
                    | None =>
                        let row := {| mi_username := mi_username msg;
                                      mi_message := mi_message msg;
                                      mi_time := mi_time msg;
                                      mi_thread := Some (Thread_id thread) |} in
                        (row, commit_messages db1 [row])
                    | Some _ => (msg, db1)
                    end in
                  match add_completion db2 completion_text msg' with
                  | None => Raises db2
                  | Some db3 => Returns (Some completion_text) db3
                  end
            end
        end
  end.

(** *** [__add_bot_to_db] and [__init__] (lines 69-117) *)

(** [__add_bot_to_db] (lines 108-117) *)
Definition add_bot_to_db (db : DB) : DB :=
  match get_bot db username with
  | Some _ => db
  | None =>
      let new_bot := {| Bot_id := next_id (map Bot_id (bots db));
                        Bot_username := username;
                        Bot_platform := platform |} in
      {| bots := (bots db ++ [new_bot])%list; threads := threads db;
         messages := messages db; completions := completions db |}
  end.

(** [__init__] (lines 78-90) as far as the database goes: the primary key
    it keeps in [__bot_pk] and the database it leaves.  [None] when
    [__get_bot] finds no row and [.id] raises. *)
Definition init (db : DB) : option (Z * DB) :=
  let db1 := add_bot_to_db db in
  match get_bot db1 username with
  | Some bot => Some (Bot_id bot, db1)
  | None => None
  end.

(** *** [save_image_to_context] (lines 224-271) *)

(** The configured key of the captioning service, the images of the
    imaging library, the number of bytes [image.save(..., format='PNG')]
    writes (what [image_bytes.tell()] reads then) and the caption
    [REPLICATE_CLIENT.run] gives for the image, if any. *)
Variable REPLICATE_KEY : string.
Variable Image : Type.
Variable png_size : Image -> Z.
Variable replicate_run : Image -> option string.

(** Line 241.  The quotient is a float; the divisor is a power of two, so
    the float holds the rational exactly. *)
Definition too_large (image : ImageInfo Image) : bool :=
  negb (Qle_bool (inject_Z (png_size (ii_image image)) / 1048576)%Q
                 (inject_Z MAX_IMAGE_SIZE_MB)).

Definition save_image_to_context (db : DB) (image : ImageInfo Image) (thread_name : string)
  : outcome (option string) :=
  if String.eqb REPLICATE_KEY EmptyString then Raises db
  else if too_large image then Returns None db
  else
    match replicate_run (ii_image image) with
    | None => Returns None db
    | Some output =>
        if String.eqb output EmptyString then Returns None db
        else
          let (thread, db1) := ensure_thread db thread_name in
          let message := {| mi_username := ii_username image;
                            mi_message := "*An image of " ++ output;
                            mi_time := ii_time image;
                            mi_thread := Some (Thread_id thread) |} in
          Returns (Some output) (commit_messages db1 [message])
    end.

(** *** [generate_image] (lines 429-463) *)

(** The configured key of the image service, its clients, the constructor
    [StabilityInference(key, verbose)], the level of the logger, the
    stream of artifacts that [generate] and [process_artifacts_from_answers]
    give for a prompt, and [PIL.Image.open] on the bytes of an artifact,
    [None] when it raises. *)
Variable DREAMSTUDIO_KEY : string.
Variable Client : Type.
Variable StabilityInference : string -> bool -> Client.
Variable logger_level : Z.
Variable generate : Client -> string -> list artifact_step.
Variable image_open : string -> option Image.

(** The [try] block of lines 454-463: the loop returns at the first
    artifact of the type image, any exception gives [None], and so does the
    end of the stream. *)
Fixpoint first_image (artifacts : list artifact_step) : option Image :=
  match artifacts with
  | [] => None
  | Failure :: _ => None
  | Artifact is_image binary :: rest =>
      if is_image then image_open binary else first_image rest
  end.

(** [generate_image]: the image, if any, and the client the bot holds
    afterwards; [None] when the key is missing and the call raises. *)
Definition generate_image (stability_client : option Client) (prompt : string)
  : option (option Image * Client) :=
  if String.eqb DREAMSTUDIO_KEY EmptyString then None
  else
    let client :=
      match stability_client with
      | None => StabilityInference DREAMSTUDIO_KEY (10 <=? logger_level)
      | Some c => c
      end in
    Some (first_image (generate client prompt), client).

End EduBot.

(** ** Vocabulary of the statements *)

(** The dedup tuple [{username, text, timestamp}] of a row and of a dict. *)
Definition row_tuple (m : Message) : string * string * Z :=
  (Message_username m, Message_message m, Message_time m).

Definition mi_tuple (m : MessageInfo) : string * string * Z :=
  (mi_username m, mi_message m, mi_time m).

(** The estimated cost of a list of formatted entries. *)
Definition total_cost (l : list gpt_msg) : Z :=
  fold_right (fun e acc => estimate_tokens (content e) + acc) 0 l.

(** [s[k:]] *)
Fixpoint string_drop (k : nat) (s : string) : string :=
  match k, s with
  | O, _ => s
  | S k', EmptyString => EmptyString
  | S k', String _ rest => string_drop k' rest
  end.

(** No occurrence of [old] starts inside [x] when [old] follows [x]. *)
Definition first_occurrence_after (old x : string) : bool :=
  forallb (fun k => negb (String.prefix old (string_drop k (x ++ old))))
          (seq 0 (String.length x)).

(** A piece without whitespace, and the number of pieces that are not
    empty. *)
Definition clean_word (w : string) : bool :=
  string_forallb (fun c => negb (Py.isspace c)) w.

Definition nonempty_words (l : list string) : nat :=
  List.length (filter (fun w => negb (String.eqb w EmptyString)) l).

(** The rows that the persist step adds for a window. *)
Definition added_rows (platform : string) (db : DB) (thread : Thread)
    (l : list MessageInfo) : list MessageInfo :=
  flat_map (fun msg => snd (persist_entry platform db thread msg)) l.

(** What the outer loop keeps true of the pool and of the merged context:
    the pool only shrinks, and an entry of the merged context is an entry
    of the pool earlier than some entry of the window, or an entry of the
    window as the persist step leaves it. *)
Definition merge_invariant (platform : string) (db : DB) (thread : Thread)
    (new_context pool : list MessageInfo) (st : merge_state) : Prop :=
  (forall x, In x (st_existing st) -> In x pool)
  /\ (forall x, In x (st_complete st) ->
        (In x pool /\ exists w, In w new_context /\ mi_time x < mi_time w)
        \/ (exists w, In w new_context /\ x = fst (persist_entry platform db thread w))).

(** *** Vocabulary of the further properties *)

(** The database a call leaves. *)
Definition outcome_db {A} (o : outcome A) : DB :=
  match o with
  | Returns _ db => db
  | Raises db => db
  end.

(** The identity of a bot and of a thread. *)
Definition bot_key (b : Bot) : string * string := (Bot_username b, Bot_platform b).

Definition thread_key (t : Thread) : string * string :=
  (Thread_thread_name t, Thread_platform t).

(** Primary keys are unique in every table, and so are the identities of
    bots and of threads. *)
Definition well_keyed (db : DB) : Prop :=
  NoDup (map Bot_id (bots db))
  /\ NoDup (map Thread_id (threads db))
  /\ NoDup (map Message_id (messages db))
  /\ NoDup (map Completion_id (completions db))
  /\ NoDup (map bot_key (bots db))
  /\ NoDup (map thread_key (threads db)).

(** Every message is under a thread of the database and every completion
    replies to a message of the database. *)
Definition well_referenced (db : DB) : Prop :=
  (forall m, In m (messages db) ->
             exists t, In t (threads db) /\ Thread_id t = Message_thread m)
  /\ (forall c, In c (completions db) ->
                exists m, In m (messages db) /\ Message_id m = Completion_reply_to c).

(** In chronological order. *)
Definition chronological (l : list MessageInfo) : Prop :=
  StronglySorted (fun a b => mi_time a <= mi_time b) l.

(** The rows of the messages are stored in the order of their times. *)
Definition stored_chronologically (db : DB) : Prop :=
  StronglySorted (fun a b => Message_time a <= Message_time b) (messages db).

(** What the outer loop keeps true before the entry of index [k]: the pool
    and the merged context are in order, and the merged context holds
    nothing later than the entry of the window before. *)
Definition merge_bounded (new_context : list MessageInfo) (k : nat) (st : merge_state)
  : Prop :=
  chronological (st_existing st)
  /\ chronological (st_complete st)
  /\ forall y, In y (st_complete st) ->
               (0 < k)%nat
               /\ exists prev, nth_error new_context (k - 1) = Some prev
                               /\ mi_time y <= mi_time prev.

(** What the outer loop keeps true of the pool it was given: under any
    test the pool at hand holds no more entries than the pool given, and
    an entry of the pool given is in the pool at hand or in the merged
    context. *)
Definition merge_kept (pool : list MessageInfo) (st : merge_state) : Prop :=
  (forall f : MessageInfo -> bool,
      (List.length (filter f (st_existing st)) <= List.length (filter f pool))%nat)
  /\ (forall x, In x pool -> In x (st_existing st) \/ In x (st_complete st)).

(** A completion that a feedback event correlates with: a completion of
    this bot with the text of the event, in reply to a message of a thread
    of the given name that was sent before the event, less than a minute
    and a half before. *)
Definition correlates (bot_pk : Z) (db : DB) (completion : CompletionInfo)
    (thread_name : string) (row : Completion) : Prop :=
  In row (completions db)
  /\ Completion_message row = ci_message completion
  /\ Completion_bot row = bot_pk
  /\ exists b m t,
       In b (bots db) /\ In m (messages db) /\ In t (threads db)
       /\ Bot_id b = Completion_bot row
       /\ Message_id m = Completion_reply_to row
       /\ Thread_id t = Message_thread m
       /\ Thread_thread_name t = thread_name
       /\ ci_time completion - timedelta 1 30 < Message_time m
       /\ Message_time m < ci_time completion.

(** A completion with another score. *)
Definition with_score (score : Z) (c : Completion) : Completion :=
  {| Completion_id := Completion_id c;
     Completion_bot := Completion_bot c;
     Completion_message := Completion_message c;
     Completion_reply_to := Completion_reply_to c;
     Completion_score := score |}.

(** The number of entries of a list that equal a dict. *)
Definition count_info (x : MessageInfo) (l : list MessageInfo) : nat :=
  List.length (filter (MessageInfo_eqb x) l).

(** The entries of a window, each after the entries placed before it. *)
Fixpoint interleave (placed : list (list MessageInfo)) (window : list MessageInfo)
  : list MessageInfo :=
  match placed, window with
  | before :: placed', w :: window' => (before ++ w :: interleave placed' window')%list
  | _, _ => []
  end.

(** *** Sample data *)

Module Sample.

Definition tab : ascii := "009"%char.

Definition tabbed : string :=
  "a" ++ String tab "b" ++ String tab "c" ++ String tab "d".

Definition info (u m : string) (t : Z) : MessageInfo :=
  {| mi_username := u; mi_message := m; mi_time := t; mi_thread := None |}.

Definition in_thread (tid : Z) (m : MessageInfo) : MessageInfo :=
  {| mi_username := mi_username m; mi_message := mi_message m;
     mi_time := mi_time m; mi_thread := Some tid |}.

Definition edubot : Bot :=
  {| Bot_id := 1; Bot_username := "edubot"; Bot_platform := "matrix" |}.

Definition room : Thread :=
  {| Thread_id := 1; Thread_thread_name := "room"; Thread_platform := "matrix" |}.

Definition lobby : Thread :=
  {| Thread_id := 2; Thread_thread_name := "lobby"; Thread_platform := "matrix" |}.

(** Two captions saved between the two messages of a window. *)
Definition cat : Message :=
  {| Message_id := 1; Message_thread := 1; Message_username := "alice";
     Message_message := "*An image of a cat"; Message_time := 3000000 |}.

Definition dog : Message :=
  {| Message_id := 2; Message_thread := 1; Message_username := "alice";
     Message_message := "*An image of a dog"; Message_time := 5000000 |}.

Definition db_captions : DB :=
  {| bots := [edubot]; threads := [room]; messages := [cat; dog]; completions := [] |}.

(** One caption only. *)
Definition db_lone_caption : DB :=
  {| bots := [edubot]; threads := [room]; messages := [cat]; completions := [] |}.

Definition hello : MessageInfo := info "alice" "hello" 0.
Definition bye : MessageInfo := info "bob" "bye" 10000000.
Definition window : list MessageInfo := [hello; bye].

(** A message stored under the other thread of the platform. *)
Definition hello_in_lobby : Message :=
  {| Message_id := 1; Message_thread := 2; Message_username := "alice";
     Message_message := "hello"; Message_time := 0 |}.

Definition db_two_threads : DB :=
  {| bots := [edubot]; threads := [room; lobby]; messages := [hello_in_lobby];
     completions := [] |}.

Definition db_empty_room : DB :=
  {| bots := [edubot]; threads := [room]; messages := []; completions := [] |}.

(** A completion in reply to a message sent at [t0]. *)
Definition t0 : Z := 1700000000000000.

Definition question : Message :=
  {| Message_id := 1; Message_thread := 1; Message_username := "alice";
     Message_message := "what is a monad?"; Message_time := t0 |}.

Definition answer : Completion :=
  {| Completion_id := 1; Completion_bot := 1; Completion_message := "a monoid";
     Completion_reply_to := 1; Completion_score := 0 |}.

Definition db_answered : DB :=
  {| bots := [edubot]; threads := [room]; messages := [question];
     completions := [answer] |}.

Definition feedback_at (t : Z) : CompletionInfo :=
  {| ci_message := "a monoid"; ci_time := t |}.

End Sample.

(** * Properties *)

(** ** Token estimator *)

Lemma split_length (sep : ascii) (s : string) :
  List.length (Py.split sep s) = S (count_char sep s).
Proof.
  induction s as [|c rest IH]; simpl; [reflexivity|].
  destruct (Ascii.eqb c sep); simpl.
  - now rewrite IH.
  - destruct (Py.split sep rest) as [|w ws]; simpl in *; [discriminate | exact IH].
Qed.

Lemma round_eighths (x : Q) (num : Z) :
  (x == num # 8)%Q -> Py.round x = round_half_even_div num 8.
Proof.
  intros Hx. unfold Py.round, round_half_even_div.
  assert (Hf : Qfloor x = num / 8) by (rewrite Hx; reflexivity).
  rewrite Hf.
  assert (Hc : Qcompare (x - inject_Z (num / 8)) (1 # 2) = (2 * (num mod 8) ?= 8)).
  { rewrite Hx. unfold Qcompare, Qminus, Qplus, Qopp, inject_Z. simpl Qnum. simpl Qden.
    pose proof (Z.div_mod num 8 ltac:(lia)) as Hdm.
    replace ((num * 1 + - (num / 8) * 8) * 2) with (2 * (num mod 8)) by lia.
    reflexivity. }
  rewrite Hc.
  destruct (Z.compare_spec (2 * (num mod 8)) 8) as [He|Hl|Hg].
  - replace (2 * (num mod 8) <? 8) with false by (symmetry; apply Z.ltb_ge; lia).
    replace (8 <? 2 * (num mod 8)) with false by (symmetry; apply Z.ltb_ge; lia).
    reflexivity.
  - replace (2 * (num mod 8) <? 8) with true by (symmetry; apply Z.ltb_lt; lia).
    reflexivity.
  - replace (2 * (num mod 8) <? 8) with false by (symmetry; apply Z.ltb_ge; lia).
    replace (8 <? 2 * (num mod 8)) with true by (symmetry; apply Z.ltb_lt; lia).
    reflexivity.
Qed.

Lemma average_eighths (len n : Z) :
  ((inject_Z len / 4 + inject_Z n * 0.75) / 2 == (len + 3 * n) # 8)%Q.
Proof.
  unfold Qeq, Qdiv, Qmult, Qplus, Qinv, inject_Z. cbn -[Z.mul Z.add]. lia.
Qed.

Lemma estimate_tokens_closed (text : string) :
  estimate_tokens text =
  round_half_even_div
    (Z.of_nat (String.length text) + 3 * Z.of_nat (S (count_char " " text))) 8.
Proof.
  unfold estimate_tokens. rewrite split_length.
  apply round_eighths, average_eighths.
Qed.

Lemma count_words_pieces (s : string) :
  forallb clean_word (Py.split " " s) = true ->
  count_words true s = nonempty_words (Py.split " " s)
  /\ count_words false s = nonempty_words (tl (Py.split " " s)).
Proof.
  induction s as [|c rest IH]; intros Hclean.
  - split; reflexivity.
  - simpl in Hclean |- *.
    destruct (Ascii.eqb c " ") eqn:Ec.
    + apply Ascii.eqb_eq in Ec. subst c.
      simpl in Hclean. destruct (IH Hclean) as [IHt _].
      change (Py.isspace " ") with true. cbn iota.
      split; exact IHt.
    + destruct (Py.split " " rest) as [|w ws] eqn:Es.
      { pose proof (split_length " " rest) as Hl. rewrite Es in Hl. discriminate. }
      simpl in Hclean.
      apply andb_true_iff in Hclean as [Hcw Hws].
      unfold clean_word in Hcw. simpl in Hcw.
      apply andb_true_iff in Hcw as [Hc Hw].
      apply negb_true_iff in Hc. rewrite Hc.
      assert (Hall : forallb clean_word (w :: ws) = true).
      { simpl. unfold clean_word at 1. now rewrite Hw, Hws. }
      destruct (IH Hall) as [_ IHf]. simpl in IHf.
      split.
      * rewrite IHf. reflexivity.
      * rewrite IHf. reflexivity.
Qed.

Lemma single_spaced_word_count (text : string) :
  single_spaced text = true ->
  whitespace_word_count text = List.length (Py.split " " text).
Proof.
  unfold single_spaced, whitespace_word_count. intros H.
  assert (Hclean : forallb clean_word (Py.split " " text) = true).
  { apply forallb_forall. intros w Hw.
    rewrite forallb_forall in H. specialize (H w Hw).
    apply andb_true_iff in H as [_ H]. exact H. }
  destruct (count_words_pieces text Hclean) as [-> _].
  unfold nonempty_words. f_equal.
  generalize dependent (Py.split " " text). clear.
  induction l as [|w ws IH]; intros H _; [reflexivity|].
  simpl in H |- *. apply andb_true_iff in H as [Hw Hws].
  apply andb_true_iff in Hw as [Hne _]. rewrite Hne. f_equal.
  apply IH; [exact Hws|].
  apply forallb_forall. intros x Hx. rewrite forallb_forall in Hws.
  specialize (Hws x Hx). apply andb_true_iff in Hws as [_ Hc]. exact Hc.
Qed.

(** C4 (as amended).  The estimate is the average, rounded to the nearest
    integer with ties to even, of the character count divided by 4 and of
    0.75 times the number of pieces that the space character cuts the text
    into (one more than the number of spaces).  It equals the estimate
    worded with the whitespace-delimited word count when the words of the
    text are separated by single spaces. *)
Theorem estimate_tokens_counts_space_pieces (text : string) :
  estimate_tokens text =
    round_half_even_div
      (Z.of_nat (String.length text) + 3 * Z.of_nat (S (count_char " " text))) 8
  /\ (single_spaced text = true -> estimate_tokens text = spec_estimate text).
Proof.
  split.
  - apply estimate_tokens_closed.
  - intros H. unfold estimate_tokens, spec_estimate.
    now rewrite (single_spaced_word_count text H).
Qed.

Lemma estimate_tokens_counts_space_pieces_witness :
  single_spaced "hello brave world" = true
  /\ estimate_tokens "hello brave world" = spec_estimate "hello brave world".
Proof.
  split.
  - reflexivity.
  - apply (proj2 (estimate_tokens_counts_space_pieces "hello brave world")).
    reflexivity.
Defined.

(** C4, the claim as worded fails on words separated by tabs: the code
    sees one piece where whitespace delimits four words. *)
Lemma estimate_tokens_ignores_tabs :
  whitespace_word_count Sample.tabbed = 4%nat
  /\ List.length (Py.split " " Sample.tabbed) = 1%nat
  /\ estimate_tokens Sample.tabbed = 1
  /\ spec_estimate Sample.tabbed = 2
  /\ estimate_tokens Sample.tabbed <> spec_estimate Sample.tabbed.
Proof.
  repeat split; try reflexivity. vm_compute. discriminate.
Qed.

(** ** Budget trimmer *)

Section Trimmer.

Variable username : string.

Lemma format_entries_fold (context : list MessageInfo) (acc : list gpt_msg) (count : Z) :
  fold_left
    (fun (acc : list gpt_msg * Z) msg =>
       let e := format_entry username msg in
       ((fst acc ++ [e])%list, snd acc + estimate_tokens (content e)))
    context (acc, count)
  = ((acc ++ map (format_entry username) context)%list,
     count + total_cost (map (format_entry username) context)).
Proof.
  revert acc count.
  induction context as [|msg rest IH]; intros acc count; simpl.
  - now rewrite app_nil_r, Z.add_0_r.
  - rewrite IH. cbn [fst snd]. rewrite <- app_assoc. simpl. f_equal. lia.
Qed.

Lemma format_entries_total (context : list MessageInfo) :
  format_entries username context
  = (map (format_entry username) context,
     total_cost (map (format_entry username) context)).
Proof.
  unfold format_entries. now rewrite format_entries_fold.
Qed.

Lemma trim_total (l : list gpt_msg) :
  exists dropped kept,
    trim l (total_cost l) = Some kept
    /\ l = (dropped ++ kept)%list
    /\ total_cost kept <= MAX_GPT_TOKENS
    /\ (forall d k, l = (d ++ k)%list -> total_cost k <= MAX_GPT_TOKENS ->
                    (List.length k <= List.length kept)%nat)
    /\ (total_cost l <= MAX_GPT_TOKENS -> kept = l).
Proof.
  induction l as [|oldest rest IH].
  - exists [], []. simpl. repeat split; try reflexivity.
    + unfold MAX_GPT_TOKENS. lia.
    + intros d k Hk _. symmetry in Hk. apply app_eq_nil in Hk as [_ ->]. simpl. lia.
  - cbn [trim]. destruct (MAX_GPT_TOKENS <? total_cost (oldest :: rest)) eqn:Hover.
    + apply Z.ltb_lt in Hover.
      replace (total_cost (oldest :: rest) - estimate_tokens (content oldest))
        with (total_cost rest) by (simpl; lia).
      destruct IH as (dropped & kept & Htrim & Happ & Hfit & Hmax & _).
      exists (oldest :: dropped), kept. repeat split.
      * exact Htrim.
      * simpl. now rewrite <- Happ.
      * exact Hfit.
      * intros d k Hdk Hk. destruct d as [|x d'].
        -- simpl in Hdk. subst k. lia.
        -- simpl in Hdk. injection Hdk as _ Hrest. now apply (Hmax d' k).
      * intros Hle. lia.
    + apply Z.ltb_ge in Hover.
      exists [], (oldest :: rest). repeat split.
      * exact Hover.
      * intros d k Hdk _. rewrite Hdk, length_app. lia.
Qed.

End Trimmer.

(** C5.  Whatever the context, the loop of [__format_context] ends without
    raising; what follows the system messages is the longest suffix of the
    formatted entries whose estimated cost is within [MAX_GPT_TOKENS], and
    it is all of them when their cost is within it already. *)
Theorem trim_keeps_longest_suffix_in_budget
    (username personality : string) (now_year : Z)
    (context : list MessageInfo) (personality_override : option string) :
  let entries := map (format_entry username) context in
  exists dropped kept,
    format_context username personality now_year context personality_override
      = Some (system_messages username personality now_year personality_override ++ kept)%list
    /\ trim (fst (format_entries username context)) (snd (format_entries username context))
       = Some kept
    /\ entries = (dropped ++ kept)%list
    /\ total_cost kept <= MAX_GPT_TOKENS
    /\ (forall d k, entries = (d ++ k)%list -> total_cost k <= MAX_GPT_TOKENS ->
                    (List.length k <= List.length kept)%nat)
    /\ (total_cost entries <= MAX_GPT_TOKENS -> kept = entries).
Proof.
  intros entries.
  destruct (trim_total (map (format_entry username) context))
    as (dropped & kept & Htrim & Happ & Hfit & Hmax & Hnoop).
  exists dropped, kept.
  unfold format_context. rewrite format_entries_total. cbn [fst snd].
  rewrite Htrim. repeat split; assumption.
Qed.

Lemma trim_keeps_longest_suffix_in_budget_witness :
  format_context "edubot" "kind" 2023 Sample.window None
  = Some (system_messages "edubot" "kind" 2023 None
          ++ map (format_entry "edubot") Sample.window)%list.
Proof.
  destruct (trim_keeps_longest_suffix_in_budget "edubot" "kind" 2023 Sample.window None)
    as (dropped & kept & Hformat & _ & _ & _ & _ & Hnoop).
  rewrite Hformat, Hnoop; [reflexivity|].
  vm_compute. discriminate.
Defined.

(** ** Context merger *)

Lemma MessageInfo_eqb_eq (a b : MessageInfo) : MessageInfo_eqb a b = true <-> a = b.
Proof.
  unfold MessageInfo_eqb. split.
  - intros H.
    apply andb_true_iff in H as [H Ht].
    apply andb_true_iff in H as [H Htime].
    apply andb_true_iff in H as [Hu Hm].
    apply String.eqb_eq in Hu. apply String.eqb_eq in Hm. apply Z.eqb_eq in Htime.
    destruct a as [au am at_ ath], b as [bu bm bt bth]; simpl in *. subst.
    destruct ath as [x|], bth as [y|]; try discriminate; [|reflexivity].
    apply Z.eqb_eq in Ht. now subst.
  - intros ->. rewrite !String.eqb_refl, Z.eqb_refl. simpl.
    destruct (mi_thread b); [apply Z.eqb_refl | reflexivity].
Qed.

Lemma list_remove_incl {A} (eqb : A -> A -> bool) (x y : A) (l : list A) :
  In y (Py.list_remove eqb x l) -> In y l.
Proof.
  induction l as [|z r IH]; simpl; [tauto|].
  destruct (eqb z x); simpl; intuition.
Qed.

Lemma list_remove_length {A} (eqb : A -> A -> bool) (x : A) (l : list A) :
  (List.length (Py.list_remove eqb x l) <= List.length l)%nat.
Proof.
  induction l as [|z r IH]; simpl; [lia|].
  destruct (eqb z x); simpl; lia.
Qed.

Lemma check_before (new_context : list MessageInfo) (index : nat) (msg extra : MessageInfo) :
  check new_context index msg extra = true -> mi_time extra < mi_time msg.
Proof.
  unfold check. destruct (0 <? index)%nat.
  - intros H. apply andb_true_iff in H as [H _]. now apply Z.ltb_lt.
  - apply Z.ltb_lt.
Qed.

(** The inner loop only moves entries of the pool that are earlier than the
    message at hand. *)
Lemma scan_pool_moves (fuel : nat) :
  forall pos new_context index msg existing complete existing' complete',
    scan_pool fuel pos new_context index msg existing complete = (existing', complete') ->
    (forall x, In x existing' -> In x existing)
    /\ (forall x, In x complete' ->
          In x complete \/ (In x existing /\ mi_time x < mi_time msg)).
Proof.
  induction fuel as [|fuel IH]; intros pos nc index msg existing complete e' c' H; simpl in H.
  - injection H as <- <-. tauto.
  - destruct (nth_error existing pos) as [extra|] eqn:Hnth.
    2:{ injection H as <- <-. tauto. }
    destruct (check nc index msg extra) eqn:Hcheck.
    + apply IH in H as [He Hc]. split.
      * intros x Hx. eapply list_remove_incl, He, Hx.
      * intros x Hx. destruct (Hc x Hx) as [Hin | [Hin Ht]].
        -- apply in_app_or in Hin as [Hin | [<- | []]]; [now left|].
           right. split; [eapply nth_error_In, Hnth | eapply check_before, Hcheck].
        -- right. split; [eapply list_remove_incl, Hin | exact Ht].
    + now apply IH in H.
Qed.

(** The length of the pool is fuel enough: more fuel changes nothing, so the
    loop stops because the iterator is past the end. *)
Lemma scan_pool_fuel (fuel1 : nat) :
  forall fuel2 pos new_context index msg existing complete,
    (List.length existing - pos <= fuel1)%nat ->
    (List.length existing - pos <= fuel2)%nat ->
    scan_pool fuel1 pos new_context index msg existing complete
    = scan_pool fuel2 pos new_context index msg existing complete.
Proof.
  induction fuel1 as [|fuel1 IH]; intros fuel2 pos nc index msg existing complete H1 H2.
  - assert (Hnone : nth_error existing pos = None) by (apply nth_error_None; lia).
    destruct fuel2; simpl; [reflexivity | now rewrite Hnone].
  - simpl. destruct (nth_error existing pos) as [extra|] eqn:Hnth.
    2:{ destruct fuel2; simpl; [reflexivity | now rewrite Hnth]. }
    assert (Hlt : (pos < List.length existing)%nat)
      by (apply nth_error_Some; congruence).
    destruct fuel2 as [|fuel2]; [lia|]. simpl. rewrite Hnth.
    pose proof (list_remove_length MessageInfo_eqb extra existing) as Hlen.
    destruct (check nc index msg extra); apply IH; lia.
Qed.

Section Merger.

Variable platform : string.
Variable db : DB.
Variable thread : Thread.
Variable new_context : list MessageInfo.

Lemma persist_entry_cases (msg : MessageInfo) :
  let row := {| mi_username := mi_username msg; mi_message := mi_message msg;
                mi_time := mi_time msg; mi_thread := Some (Thread_id thread) |} in
  (persist_entry platform db thread msg = (msg, [])
   /\ (get_message platform db msg <> None
       \/ get_bot platform db (mi_username msg) <> None))
  \/ (persist_entry platform db thread msg = (row, [row])
      /\ get_message platform db msg = None
      /\ get_bot platform db (mi_username msg) = None).
Proof.
  unfold persist_entry.
  destruct (get_message platform db msg); [left; split; [reflexivity | left; discriminate]|].
  destruct (get_bot platform db (mi_username msg)).
  - left. split; [reflexivity | right; discriminate].
  - right. repeat split.
Qed.

Lemma merge_body_invariant (pool : list MessageInfo) (st : merge_state)
    (index : nat) (msg : MessageInfo) :
  In msg new_context ->
  merge_invariant platform db thread new_context pool st ->
  merge_invariant platform db thread new_context pool (merge_body platform db thread new_context st (index, msg)).
Proof.
  intros Hmsg [Hex Hco]. unfold merge_body.
  destruct (scan_pool _ 0 new_context index msg (st_existing st) (st_complete st))
    as [existing complete] eqn:Hscan.
  apply scan_pool_moves in Hscan as [He Hc].
  destruct (persist_entry platform db thread msg) as [msg' rows] eqn:Hp.
  split; cbn [st_existing st_complete].
  - intros x Hx. auto.
  - intros x Hx. apply in_app_or in Hx as [Hx | [<- | []]].
    + destruct (Hc x Hx) as [Hin | [Hin Ht]]; [auto|].
      left. split; [auto | exists msg; auto].
    + right. exists msg. rewrite Hp. auto.
Qed.

Lemma merge_fold_invariant (pool : list MessageInfo) (ims : list (nat * MessageInfo)) :
  forall st,
    (forall im, In im ims -> In (snd im) new_context) ->
    merge_invariant platform db thread new_context pool st ->
    merge_invariant platform db thread new_context pool (fold_left (merge_body platform db thread new_context) ims st).
Proof.
  induction ims as [|[index msg] ims IH]; intros st Hin Hinv; simpl; [exact Hinv|].
  apply IH.
  - intros im Him. apply Hin. now right.
  - apply merge_body_invariant; [|exact Hinv].
    apply (Hin (index, msg)). now left.
Qed.

Lemma enumerate_snd {A} (l : list A) (im : nat * A) : In im (enumerate l) -> In (snd im) l.
Proof.
  destruct im as [i m]. unfold enumerate. intros H. eapply in_combine_r, H.
Qed.

Lemma merge_loop_invariant (pool : list MessageInfo) :
  merge_invariant platform db thread new_context pool (merge_loop platform db thread new_context pool).
Proof.
  unfold merge_loop. apply merge_fold_invariant.
  - intros im. apply enumerate_snd.
  - split; cbn [st_existing st_complete]; [auto | intros x []].
Qed.

(** The rows added and the window left behind do not depend on the pool. *)
Lemma merge_fold_added (ims : list (nat * MessageInfo)) :
  forall st,
    st_added (fold_left (merge_body platform db thread new_context) ims st)
      = (st_added st
         ++ flat_map (fun im => snd (persist_entry platform db thread (snd im))) ims)%list
    /\ st_window (fold_left (merge_body platform db thread new_context) ims st)
      = (st_window st
         ++ map (fun im => fst (persist_entry platform db thread (snd im))) ims)%list.
Proof.
  induction ims as [|[index msg] ims IH]; intros st; cbn [fold_left flat_map map snd].
  - now rewrite !app_nil_r.
  - destruct (IH (merge_body platform db thread new_context st (index, msg))) as [Ha Hw].
    rewrite Ha, Hw. unfold merge_body.
    destruct (scan_pool _ 0 new_context index msg (st_existing st) (st_complete st)).
    destruct (persist_entry platform db thread msg) as [msg' rows].
    cbn [st_added st_window fst snd]. rewrite <- !app_assoc. split; reflexivity.
Qed.

Lemma enumerate_map_snd {A} (l : list A) : map snd (enumerate l) = l.
Proof.
  unfold enumerate. generalize 0%nat.
  induction l as [|x r IH]; intros n; simpl; [reflexivity|]. now rewrite IH.
Qed.

Lemma merge_loop_added (pool : list MessageInfo) :
  st_added (merge_loop platform db thread new_context pool)
  = flat_map (fun msg => snd (persist_entry platform db thread msg)) new_context.
Proof.
  unfold merge_loop.
  destruct (merge_fold_added (enumerate new_context)
              {| st_existing := pool; st_complete := []; st_added := []; st_window := [] |})
    as [Ha _].
  rewrite Ha. cbn [st_added app].
  rewrite <- (enumerate_map_snd new_context) at 2.
  rewrite flat_map_concat_map, flat_map_concat_map, map_map. reflexivity.
Qed.

End Merger.

(** ** The store operations *)

Lemma hd_error_in {A} (l : list A) (x : A) : hd_error l = Some x -> In x l.
Proof. destruct l; simpl; [discriminate | intros [= ->]; now left]. Qed.

Lemma hd_error_inhabited {A} (l : list A) (x : A) : In x l -> hd_error l <> None.
Proof. destruct l; simpl; [tauto | discriminate]. Qed.

Lemma find_app_none {A} (f : A -> bool) (l l' : list A) :
  find f l = None -> find f (l ++ l') = find f l'.
Proof.
  induction l as [|x r IH]; simpl; [reflexivity|].
  destruct (f x); [discriminate | exact IH].
Qed.

Section Store.

Variable platform : string.

Lemma get_message_condition (r : Message) (t : Thread) (m : MessageInfo) :
  String.eqb (Message_username r) (mi_username m)
  && String.eqb (Message_message r) (mi_message m)
  && Z.eqb (Message_time r) (mi_time m)
  && String.eqb (Thread_platform t) platform = true
  <-> row_tuple r = mi_tuple m /\ Thread_platform t = platform.
Proof.
  unfold row_tuple, mi_tuple.
  rewrite !andb_true_iff, !String.eqb_eq, Z.eqb_eq.
  split.
  - intros [[[-> ->] ->] ->]. split; reflexivity.
  - intros [[= -> -> ->] ->]. repeat split.
Qed.

Lemma get_message_sound (db : DB) (m : MessageInfo) (r : Message) :
  get_message platform db m = Some r ->
  In r (messages db) /\ row_tuple r = mi_tuple m
  /\ exists t, In t (threads db) /\ Thread_platform t = platform.
Proof.
  unfold get_message. intros H. apply hd_error_in in H.
  apply in_flat_map in H as (r' & Hr' & H).
  apply in_flat_map in H as (t & Ht & H).
  match type of H with In _ (if ?c then _ else _) => destruct c eqn:Hc end;
    [|destruct H].
  destruct H as [<- | []].
  apply get_message_condition in Hc as [Htuple Hplat].
  repeat split; try assumption. now exists t.
Qed.

Lemma get_message_found (db : DB) (m : MessageInfo) (r : Message) (t : Thread) :
  In r (messages db) -> row_tuple r = mi_tuple m ->
  In t (threads db) -> Thread_platform t = platform ->
  get_message platform db m <> None.
Proof.
  intros Hr Htuple Ht Hplat. unfold get_message.
  apply (hd_error_inhabited _ r).
  apply in_flat_map. exists r. split; [exact Hr|].
  apply in_flat_map. exists t. split; [exact Ht|].
  match goal with |- In _ (if ?c then _ else _) => replace c with true end;
    [now left|].
  symmetry. apply get_message_condition. now split.
Qed.

Lemma get_message_none (db : DB) (m : MessageInfo) (t : Thread) :
  get_message platform db m = None ->
  In t (threads db) -> Thread_platform t = platform ->
  forall r, In r (messages db) -> row_tuple r <> mi_tuple m.
Proof.
  intros Hnone Ht Hplat r Hr Htuple.
  now apply (get_message_found db m r t Hr Htuple Ht Hplat).
Qed.


Lemma ensure_thread_tables (db : DB) (thread_name : string) :
  bots (snd (ensure_thread platform db thread_name)) = bots db
  /\ messages (snd (ensure_thread platform db thread_name)) = messages db
  /\ completions (snd (ensure_thread platform db thread_name)) = completions db.
Proof.
  unfold ensure_thread. destruct (get_thread platform db thread_name); simpl; auto.
Qed.

Lemma ensure_thread_found (db : DB) (thread_name : string) :
  let thread := fst (ensure_thread platform db thread_name) in
  let db1 := snd (ensure_thread platform db thread_name) in
  get_thread platform db1 thread_name = Some thread
  /\ In thread (threads db1)
  /\ Thread_platform thread = platform.
Proof.
  unfold ensure_thread.
  destruct (get_thread platform db thread_name) as [t|] eqn:Hget; cbn [fst snd].
  - split; [exact Hget|]. unfold get_thread in Hget.
    apply find_some in Hget as [Hin Hc].
    apply andb_true_iff in Hc as [_ Hp]. apply String.eqb_eq in Hp. auto.
  - unfold insert_thread, get_thread in *. cbn [fst snd threads].
    rewrite (find_app_none _ _ _ Hget). simpl.
    rewrite !String.eqb_refl. simpl. repeat split.
    apply in_or_app. right. now left.
Qed.

(** A second look for the thread finds it and changes nothing. *)
Lemma ensure_thread_again (db db' : DB) (thread_name : string) :
  threads db' = threads (snd (ensure_thread platform db thread_name)) ->
  ensure_thread platform db' thread_name
  = (fst (ensure_thread platform db thread_name), db').
Proof.
  intros Hthreads.
  destruct (ensure_thread_found db thread_name) as [Hget _].
  unfold ensure_thread at 1. unfold get_thread in *. rewrite Hthreads, Hget.
  reflexivity.
Qed.

Lemma commit_messages_tables (rows : list MessageInfo) :
  forall db,
    bots (commit_messages db rows) = bots db
    /\ threads (commit_messages db rows) = threads db
    /\ completions (commit_messages db rows) = completions db
    /\ exists new,
         messages (commit_messages db rows) = (messages db ++ new)%list
         /\ map row_tuple new = map mi_tuple rows
         /\ map Message_thread new
            = map (fun row => match mi_thread row with Some t => t | None => 0 end) rows.
Proof.
  induction rows as [|row rest IH]; intros db; simpl.
  - repeat split. exists []. now rewrite app_nil_r.
  - match goal with |- context [commit_messages ?d rest] =>
      destruct (IH d) as (Hb & Ht & Hc & new & Hm & Htu & Hth) end.
    cbn [bots threads completions messages] in *.
    repeat split; try assumption.
    eexists (_ :: new). rewrite Hm, <- app_assoc. simpl.
    split; [reflexivity|]. split; f_equal; assumption.
Qed.

End Store.

(** ** Merging and persisting *)

Lemma flat_map_nil {A B} (f : A -> list B) (l : list A) :
  (forall x, In x l -> f x = []) -> flat_map f l = [].
Proof.
  induction l as [|x r IH]; intros H; simpl; [reflexivity|].
  rewrite (H x (or_introl eq_refl)), IH; [reflexivity|].
  intros y Hy. apply H. now right.
Qed.

Section Persist.

Variable platform : string.
Variable db : DB.
Variable thread : Thread.

Lemma added_origin (l : list MessageInfo) (row : MessageInfo) :
  In row (added_rows platform db thread l) ->
  exists msg, In msg l /\ mi_tuple row = mi_tuple msg
              /\ mi_thread row = Some (Thread_id thread)
              /\ get_message platform db msg = None.
Proof.
  unfold added_rows. intros H. apply in_flat_map in H as (msg & Hmsg & H).
  destruct (persist_entry_cases platform db thread msg) as [[Hp _] | (Hp & Hg & _)];
    rewrite Hp in H; simpl in H; [destruct H|].
  destruct H as [<- | []]. exists msg. repeat split; assumption.
Qed.

Lemma added_nodup (l : list MessageInfo) :
  NoDup (map mi_tuple l) -> NoDup (map mi_tuple (added_rows platform db thread l)).
Proof.
  induction l as [|msg rest IH]; intros Hnd; [constructor|].
  simpl in Hnd. inversion Hnd as [|? ? Hnotin Hrest]; subst.
  unfold added_rows. cbn [flat_map]. fold (added_rows platform db thread rest).
  destruct (persist_entry_cases platform db thread msg) as [[Hp _] | (Hp & _)];
    rewrite Hp; cbn [snd app]; [now apply IH|].
  simpl. constructor; [|now apply IH].
  intros Hin. apply in_map_iff in Hin as (row & Htuple & Hrow).
  apply added_origin in Hrow as (msg' & Hmsg' & Ht & _).
  apply Hnotin. apply in_map_iff. exists msg'. split; [|exact Hmsg'].
  rewrite <- Ht, Htuple. reflexivity.
Qed.

End Persist.

(** C6 (as amended).  A second run of the merge-and-persist step with the
    same window and thread, be it the window as given or as the first run
    left it, creates no row: the database stays as the first run left it.
    A run on a window in which no tuple occurs twice adds rows of this
    thread only, each with a tuple that no stored message has and no two
    with the same tuple. *)
Theorem merge_and_persist_idempotent
    (platform : string) (db : DB) (new_context : list MessageInfo) (thread_name : string)
    (complete window' : list MessageInfo) (db' : DB) :
  merge_and_persist platform db new_context thread_name = Returns (complete, window') db' ->
  map mi_tuple window' = map mi_tuple new_context
  /\ (forall again,
        map mi_tuple again = map mi_tuple new_context ->
        exists complete2 window2,
          merge_and_persist platform db' again thread_name
          = Returns (complete2, window2) db')
  /\ (NoDup (map mi_tuple new_context) ->
      exists new,
        messages db' = (messages db ++ new)%list
        /\ NoDup (map row_tuple new)
        /\ (forall r, In r new -> ~ In (row_tuple r) (map row_tuple (messages db)))
        /\ (forall r, In r new ->
              Message_thread r = Thread_id (fst (ensure_thread platform db thread_name)))).
Proof.
  intros Hrun. unfold merge_and_persist in Hrun.
  pose proof (ensure_thread_found platform db thread_name) as (Hget & Hin & Hplat).
  pose proof (ensure_thread_tables platform db thread_name) as (Hbots & Hmsgs & _).
  pose proof (ensure_thread_again platform db db' thread_name) as Hagain.
  destruct (ensure_thread platform db thread_name) as [thread db1] eqn:He.
  cbn [fst snd] in *.
  destruct new_context as [|first rest]; [discriminate|].
  set (nc := first :: rest) in *.
  injection Hrun as Hc Hw Hdb.
  rewrite merge_loop_added in Hdb.
  destruct (commit_messages_tables
              (flat_map (fun msg => snd (persist_entry platform db1 thread msg)) nc) db1)
    as (Hb' & Ht' & _ & new & Hm' & Htuples & Hthreads).
  rewrite Hdb in Hb', Ht', Hm'.
  split; [|split].
  - (* the window keeps its tuples *)
    subst window'. unfold merge_loop.
    destruct (merge_fold_added platform db1 thread nc (enumerate nc)
                {| st_existing := existing_context db1 thread nc (mi_time first);
                   st_complete := []; st_added := []; st_window := [] |}) as [_ Hwin].
    rewrite Hwin. cbn [st_window app].
    rewrite map_map.
    rewrite <- (enumerate_map_snd nc) at 2. rewrite map_map.
    apply map_ext. intros [i msg]. cbn [snd].
    destruct (persist_entry_cases platform db1 thread msg) as [[-> _] | [-> _]];
      reflexivity.
  - (* the second run *)
    intros again Hsame.
    unfold merge_and_persist.
    rewrite (Hagain Ht').
    destruct again as [|first2 rest2]; [discriminate|].
    set (again := first2 :: rest2) in *.
    do 2 eexists. f_equal.
    rewrite merge_loop_added.
    rewrite flat_map_nil; [reflexivity|].
    intros msg2 Hmsg2.
    assert (Hfrom : exists msg, In msg nc /\ mi_tuple msg2 = mi_tuple msg).
    { assert (Hin2 : In (mi_tuple msg2) (map mi_tuple nc))
        by (rewrite <- Hsame; now apply in_map).
      apply in_map_iff in Hin2 as (msg & Htuple & Hmsg). now exists msg. }
    destruct Hfrom as (msg & Hmsg & Htuple).
    assert (Hskip : get_message platform db' msg2 <> None
                    \/ get_bot platform db' (mi_username msg2) <> None).
    { destruct (persist_entry_cases platform db1 thread msg)
        as [[_ [Hfound | Hbot]] | (Hp & _ & _)].
      - left. destruct (get_message platform db1 msg) as [r|] eqn:Hr; [|congruence].
        apply get_message_sound in Hr as (Hrin & Hrt & _).
        apply (get_message_found platform db' msg2 r thread).
        + rewrite Hm'. apply in_or_app. now left.
        + now rewrite Htuple.
        + now rewrite Ht'.
        + exact Hplat.
      - right. unfold get_bot in *. rewrite Hb'.
        assert (Hu : mi_username msg2 = mi_username msg)
          by (unfold mi_tuple in Htuple; congruence).
        now rewrite Hu.
      - left.
        assert (Hrow : In (mi_tuple msg)
                          (map mi_tuple
                             (flat_map (fun m => snd (persist_entry platform db1 thread m)) nc))).
        { apply in_map_iff.
          exists {| mi_username := mi_username msg; mi_message := mi_message msg;
                    mi_time := mi_time msg; mi_thread := Some (Thread_id thread) |}.
          split; [reflexivity|].
          apply in_flat_map. exists msg. split; [exact Hmsg|].
          rewrite Hp. now left. }
        rewrite <- Htuples in Hrow. apply in_map_iff in Hrow as (r & Hrt & Hrin).
        apply (get_message_found platform db' msg2 r thread).
        + rewrite Hm'. apply in_or_app. now right.
        + now rewrite Htuple.
        + now rewrite Ht'.
        + exact Hplat. }
    unfold persist_entry.
    destruct (get_message platform db' msg2); [reflexivity|].
    destruct (get_bot platform db' (mi_username msg2)); [reflexivity|].
    destruct Hskip as [Hs | Hs]; congruence.
  - (* the rows of the first run *)
    intros Hnd. exists new. rewrite <- Hmsgs. split; [exact Hm'|].
    split; [|split].
    + rewrite Htuples. now apply added_nodup.
    + intros r Hr Hstored.
      assert (Hrow : In (row_tuple r) (map row_tuple new)) by now apply in_map.
      rewrite Htuples in Hrow. apply in_map_iff in Hrow as (row & Hrt & Hrow).
      apply added_origin in Hrow as (msg & _ & Htuple & _ & Hnone).
      apply in_map_iff in Hstored as (r' & Hr't & Hr'in).
      apply (get_message_none platform db1 msg thread Hnone Hin Hplat r' Hr'in).
      congruence.
    + intros r Hr.
      assert (Hth : In (Message_thread r) (map Message_thread new)) by now apply in_map.
      rewrite Hthreads in Hth. apply in_map_iff in Hth as (row & Hrth & Hrow).
      apply added_origin in Hrow as (_ & _ & _ & Hsome & _).
      rewrite Hsome in Hrth. congruence.
Qed.

Lemma merge_and_persist_idempotent_witness :
  exists complete window' db',
    merge_and_persist "matrix" Sample.db_empty_room Sample.window "room"
      = Returns (complete, window') db'
    /\ List.length (messages db') = 2%nat
    /\ exists complete2 window2,
         merge_and_persist "matrix" db' window' "room" = Returns (complete2, window2) db'.
Proof.
  do 3 eexists. split; [vm_compute; reflexivity|]. split; [reflexivity|].
  eapply (merge_and_persist_idempotent "matrix" Sample.db_empty_room Sample.window "room").
  - vm_compute. reflexivity.
  - reflexivity.
Defined.

(** C6, the claim as worded fails on a window that holds the same tuple
    twice: the check for a stored message reads committed rows, the first
    of the two is added but not yet committed when the second is checked,
    and one run writes the tuple twice under the thread. *)
Lemma merge_and_persist_writes_repeated_tuple :
  let row := Sample.in_thread 1 Sample.hello in
  let m1 := {| Message_id := 1; Message_thread := 1; Message_username := "alice";
               Message_message := "hello"; Message_time := 0 |} in
  let m2 := {| Message_id := 2; Message_thread := 1; Message_username := "alice";
               Message_message := "hello"; Message_time := 0 |} in
  merge_and_persist "matrix" Sample.db_empty_room [Sample.hello; Sample.hello] "room"
    = Returns ([row; row], [row; row])
        {| bots := [Sample.edubot]; threads := [Sample.room];
           messages := [m1; m2]; completions := [] |}
  /\ row_tuple m1 = row_tuple m2
  /\ Message_thread m1 = Message_thread m2
  /\ ~ NoDup (map row_tuple [m1; m2]).
Proof.
  cbv zeta. split; [vm_compute; reflexivity|]. split; [reflexivity|].
  split; [reflexivity|].
  intros H. inversion H as [|? ? Hnotin _]; subst. apply Hnotin. now left.
Qed.

(** C3 (as amended).  An entry is skipped as already stored as soon as a
    message with its tuple is stored under a thread of this platform, this
    thread or another one; an entry whose tuple no stored message has is not
    skipped as already stored, and is added under this thread unless its
    author is a known bot. *)
Theorem persist_skip_is_platform_wide
    (platform : string) (db : DB) (thread : Thread) (msg : MessageInfo) :
  ((exists r t, In r (messages db) /\ In t (threads db)
                /\ Message_thread r = Thread_id t /\ Thread_platform t = platform
                /\ row_tuple r = mi_tuple msg) ->
   get_message platform db msg <> None
   /\ persist_entry platform db thread msg = (msg, []))
  /\ ((forall r, In r (messages db) -> row_tuple r <> mi_tuple msg) ->
      get_message platform db msg = None
      /\ (get_bot platform db (mi_username msg) = None ->
          let row := {| mi_username := mi_username msg; mi_message := mi_message msg;
                        mi_time := mi_time msg; mi_thread := Some (Thread_id thread) |} in
          persist_entry platform db thread msg = (row, [row]))).
Proof.
  split.
  - intros (r & t & Hr & Ht & _ & Hplat & Htuple).
    pose proof (get_message_found platform db msg r t Hr Htuple Ht Hplat) as Hfound.
    split; [exact Hfound|].
    unfold persist_entry. destruct (get_message platform db msg); congruence.
  - intros Hnone.
    assert (Hget : get_message platform db msg = None).
    { destruct (get_message platform db msg) as [r|] eqn:Hr; [|reflexivity].
      apply get_message_sound in Hr as (Hrin & Hrt & _).
      now destruct (Hnone r Hrin). }
    split; [exact Hget|].
    intros Hbot. unfold persist_entry. now rewrite Hget, Hbot.
Qed.

Lemma persist_skip_is_platform_wide_witness :
  (exists r t, In r (messages Sample.db_two_threads) /\ In t (threads Sample.db_two_threads)
               /\ Message_thread r = Thread_id t /\ Thread_platform t = "matrix"
               /\ row_tuple r = mi_tuple Sample.hello)
  /\ persist_entry "matrix" Sample.db_two_threads Sample.room Sample.hello
     = (Sample.hello, []).
Proof.
  assert (H : exists r t, In r (messages Sample.db_two_threads)
                          /\ In t (threads Sample.db_two_threads)
                          /\ Message_thread r = Thread_id t /\ Thread_platform t = "matrix"
                          /\ row_tuple r = mi_tuple Sample.hello).
  { exists Sample.hello_in_lobby, Sample.lobby. simpl. repeat split; auto. }
  split; [exact H|].
  exact (proj2 (proj1 (persist_skip_is_platform_wide
                         "matrix" Sample.db_two_threads Sample.room Sample.hello) H)).
Defined.

(** C3, the claim as worded fails: no message with the tuple is stored
    under the thread of the call, one is stored under another thread of the
    platform, and the entry is skipped; the run persists nothing. *)
Lemma persist_skip_not_thread_scoped :
  (forall r, In r (messages Sample.db_two_threads) ->
             row_tuple r = mi_tuple Sample.hello ->
             Message_thread r <> Thread_id Sample.room)
  /\ get_thread "matrix" Sample.db_two_threads "room" = Some Sample.room
  /\ persist_entry "matrix" Sample.db_two_threads Sample.room Sample.hello
     = (Sample.hello, [])
  /\ merge_and_persist "matrix" Sample.db_two_threads [Sample.hello] "room"
     = Returns ([Sample.hello], [Sample.hello]) Sample.db_two_threads.
Proof.
  split; [|repeat split; vm_compute; reflexivity].
  intros r [<- | []] _. vm_compute. discriminate.
Qed.

Lemma existing_context_in (db : DB) (thread : Thread) (new_context : list MessageInfo)
    (first_time : Z) (e : MessageInfo) :
  In e (existing_context db thread new_context first_time) ->
  mi_thread e = None /\ ~ In e new_context.
Proof.
  unfold existing_context. intros H. apply filter_In in H as [Hin Hnot].
  apply in_map_iff in Hin as (m & <- & _). split; [reflexivity|].
  intros Hmem. apply negb_true_iff in Hnot.
  assert (Hex : existsb (MessageInfo_eqb (row_as_msg_info m)) new_context = true).
  { apply existsb_exists. exists (row_as_msg_info m). split; [exact Hmem|].
    now apply MessageInfo_eqb_eq. }
  congruence.
Qed.

(** C7.  An entry of the pool that is not earlier than any entry of the
    window is absent from the merged context. *)
Theorem late_pool_entry_is_dropped
    (platform : string) (db : DB) (first : MessageInfo) (rest : list MessageInfo)
    (thread_name : string) (e : MessageInfo) :
  In e (existing_context (snd (ensure_thread platform db thread_name))
          (fst (ensure_thread platform db thread_name)) (first :: rest) (mi_time first)) ->
  (forall w, In w (first :: rest) -> mi_time w <= mi_time e) ->
  exists complete window' db',
    merge_and_persist platform db (first :: rest) thread_name
      = Returns (complete, window') db'
    /\ ~ In e complete.
Proof.
  intros Hpool Hlate. unfold merge_and_persist.
  destruct (ensure_thread platform db thread_name) as [thread db1]. cbn [fst snd] in Hpool.
  do 3 eexists. split; [reflexivity|].
  intros Hin.
  destruct (existing_context_in _ _ _ _ _ Hpool) as [Hnone Hfresh].
  destruct (merge_loop_invariant platform db1 thread (first :: rest)
              (existing_context db1 thread (first :: rest) (mi_time first))) as [_ Hinv].
  destruct (Hinv e Hin) as [[_ (w & Hw & Ht)] | (w & Hw & He)].
  - specialize (Hlate w Hw). lia.
  - destruct (persist_entry_cases platform db1 thread w) as [[Hp _] | [Hp _]];
      rewrite Hp in He; cbn [fst] in He.
    + apply Hfresh. now subst e.
    + subst e. discriminate.
Qed.

Lemma late_pool_entry_is_dropped_witness :
  let late := Sample.info "alice" "*An image of a cat" 3000000 in
  exists complete window' db',
    merge_and_persist "matrix" Sample.db_captions [Sample.hello] "room"
      = Returns (complete, window') db'
    /\ ~ In late complete.
Proof.
  apply (late_pool_entry_is_dropped "matrix" Sample.db_captions Sample.hello [] "room").
  - vm_compute. now left.
  - intros w [<- | []]. vm_compute. discriminate.
Defined.

(** C1, the code at a window with two stored captions between its two
    messages: both captions are in the pool and both lie strictly between
    the two timestamps, yet the merged context holds the first one only.
    Removing the first caption from the pool moves the second one under the
    position the iterator has just left, and the loop ends without looking
    at it. *)
Theorem merge_skips_neighbour_in_pool :
  let cat := row_as_msg_info Sample.cat in
  let dog := row_as_msg_info Sample.dog in
  let hello := Sample.in_thread 1 Sample.hello in
  let bye := Sample.in_thread 1 Sample.bye in
  existing_context Sample.db_captions Sample.room Sample.window (mi_time Sample.hello)
    = [cat; dog]
  /\ mi_time Sample.hello < mi_time dog < mi_time Sample.bye
  /\ (exists db',
        merge_and_persist "matrix" Sample.db_captions Sample.window "room"
        = Returns ([hello; cat; bye], [hello; bye]) db')
  /\ ~ In dog [hello; cat; bye].
Proof.
  cbv zeta. split; [vm_compute; reflexivity|].
  split; [vm_compute; split; reflexivity|].
  split; [eexists; vm_compute; reflexivity|].
  intros [H | [H | [H | []]]]; vm_compute in H; discriminate.
Qed.

(** ** Stripping the echo of the bot's name *)

Lemma append_assoc (a b c : string) : ((a ++ b) ++ c = a ++ (b ++ c))%string.
Proof. induction a as [|x a IH]; simpl; [reflexivity | now rewrite IH]. Qed.

Lemma length_append (a b : string) :
  String.length (a ++ b) = (String.length a + String.length b)%nat.
Proof. induction a as [|x a IH]; simpl; [reflexivity | now rewrite IH]. Qed.

Lemma prefix_append (p s : string) : String.prefix p (p ++ s) = true.
Proof.
  induction p as [|a p IH]; simpl.
  - destruct s; reflexivity.
  - destruct (ascii_dec a a); [exact IH | congruence].
Qed.

Lemma prefix_long (p : string) :
  forall s y, (String.length p <= String.length s)%nat ->
              String.prefix p (s ++ y) = String.prefix p s.
Proof.
  induction p as [|a p IH]; intros s y Hlen.
  - destruct s, y; reflexivity.
  - destruct s as [|b s]; simpl in Hlen; [lia|].
    simpl. destruct (ascii_dec a b); [|reflexivity].
    apply IH. lia.
Qed.

Lemma remove_all_from_skip (old x rest : string) :
  Py.remove_all_from old (x ++ rest) (String.length x) = Py.remove_all_from old rest 0.
Proof.
  induction x as [|c x IH]; simpl; [reflexivity | exact IH].
Qed.

Lemma remove_all_leading (old rest : string) :
  old <> EmptyString -> Py.remove_all old (old ++ rest) = Py.remove_all old rest.
Proof.
  intros Hne. destruct old as [|a old']; [congruence|].
  unfold Py.remove_all.
  change (String a old' ++ rest)%string with (String a (old' ++ rest)).
  cbn [Py.remove_all_from].
  change (String a (old' ++ rest)) with (String a old' ++ rest)%string.
  rewrite prefix_append.
  replace (String.length (String a old') - 1)%nat with (String.length old')
    by (simpl; lia).
  apply remove_all_from_skip.
Qed.

Lemma first_occurrence_after_tail (old : string) (c : ascii) (x : string) :
  first_occurrence_after old (String c x) = true ->
  String.prefix old (String c x ++ old) = false
  /\ first_occurrence_after old x = true.
Proof.
  unfold first_occurrence_after. cbn [String.length seq forallb].
  intros H. apply andb_true_iff in H as [H0 Hrest]. split.
  - apply negb_true_iff in H0. exact H0.
  - rewrite <- seq_shift, forallb_forall in Hrest.
    apply forallb_forall. intros k Hk.
    apply (Hrest (S k)). now apply in_map.
Qed.

Lemma remove_all_later (old x y : string) :
  old <> EmptyString ->
  first_occurrence_after old x = true ->
  Py.remove_all old (x ++ old ++ y) = (x ++ Py.remove_all old y)%string.
Proof.
  intros Hne. induction x as [|c x IH]; intros Hfirst.
  - cbn [String.append]. now apply remove_all_leading.
  - apply first_occurrence_after_tail in Hfirst as [Hhere Hrest].
    unfold Py.remove_all in *.
    change (String c x ++ old ++ y)%string with (String c (x ++ old ++ y)).
    cbn [Py.remove_all_from].
    assert (Hp : String.prefix old (String c (x ++ old ++ y)) = false).
    { change (String c (x ++ old ++ y)) with (String c x ++ (old ++ y))%string.
      rewrite <- append_assoc, prefix_long; [exact Hhere|].
      rewrite length_append. lia. }
    rewrite Hp, (IH Hrest). reflexivity.
Qed.

Lemma echo_nonempty (username : string) : (username ++ ": ")%string <> EmptyString.
Proof. destruct username; discriminate. Qed.

Lemma merge_and_persist_completions
    (platform : string) (db : DB) (new_context : list MessageInfo) (thread_name : string)
    (result : list MessageInfo * list MessageInfo) (db' : DB) :
  merge_and_persist platform db new_context thread_name = Returns result db' ->
  completions db' = completions db.
Proof.
  unfold merge_and_persist. intros H.
  pose proof (ensure_thread_tables platform db thread_name) as (_ & _ & Hc).
  destruct (ensure_thread platform db thread_name) as [thread db1]. cbn [snd] in Hc.
  destruct new_context as [|first rest]; [discriminate|].
  injection H as _ Hdb. rewrite <- Hdb, <- Hc.
  apply commit_messages_tables.
Qed.

(** C8 (as amended).  The text recorded and returned is the result of the
    language model with every occurrence of the bot's name followed by a
    colon and a space removed, as a scan from the left meets them, and with
    leading whitespace stripped then: a leading echo goes, and so does an
    occurrence further on. *)
Theorem strip_username_removes_every_echo (username : string) :
  (forall rest,
     strip_username username ((username ++ ": ") ++ rest) = strip_username username rest)
  /\ (forall x y,
        first_occurrence_after (username ++ ": ") x = true ->
        strip_username username (x ++ (username ++ ": ") ++ y)
        = Py.lstrip (x ++ Py.remove_all (username ++ ": ") y))
  /\ (forall platform personality bot_pk OPENAI_KEY chat_completion now_year
             db new_context thread_name personality_override text db',
        gpt_answer username platform personality bot_pk OPENAI_KEY chat_completion
                   now_year db new_context thread_name personality_override
        = Returns text db' ->
        (exists gpt_context,
            chat_completion gpt_context = None
            /\ text = EmptyString /\ completions db' = completions db)
        \/ (exists gpt_context response c,
              chat_completion gpt_context = Some response
              /\ text = strip_username username response
              /\ completions db' = (completions db ++ [c])%list
              /\ Completion_message c = text)).
Proof.
  split; [|split].
  - intros rest. unfold strip_username.
    now rewrite remove_all_leading by apply echo_nonempty.
  - intros x y Hfirst. unfold strip_username.
    now rewrite remove_all_later by (apply echo_nonempty || exact Hfirst).
  - intros platform personality bot_pk OPENAI_KEY chat_completion now_year
           db new_context thread_name personality_override text db' H.
    unfold gpt_answer in H.
    destruct (String.eqb OPENAI_KEY EmptyString); [discriminate|].
    destruct (merge_and_persist platform db new_context thread_name)
      as [[complete window'] db1|] eqn:Hmerge; [|discriminate].
    apply merge_and_persist_completions in Hmerge.
    destruct (format_context username personality now_year complete personality_override)
      as [gpt_context|]; [|discriminate].
    destruct (chat_completion gpt_context) as [response|] eqn:Hchat.
    + right. destruct (rev window') as [|reply_to ?]; [discriminate|].
      unfold add_completion in H.
      destruct (get_message platform db1 reply_to) as [m|]; [|discriminate].
      injection H as Htext Hdb. subst text db'. cbn [completions].
      rewrite Hmerge. do 3 eexists. split; [exact Hchat|].
      split; [reflexivity|]. split; reflexivity.
    + left. injection H as <- <-. exists gpt_context. auto.
Qed.

Lemma strip_username_removes_every_echo_witness :
  first_occurrence_after ("edubot" ++ ": ") "Sure. " = true
  /\ strip_username "edubot" ("Sure. " ++ ("edubot" ++ ": ") ++ "It is noon.")
     = Py.lstrip ("Sure. " ++ Py.remove_all ("edubot" ++ ": ") "It is noon.").
Proof.
  split; [reflexivity|].
  apply (proj1 (proj2 (strip_username_removes_every_echo "edubot"))).
  reflexivity.
Defined.

(** C8, the claim as worded fails: an occurrence that is not a leading
    echo does not remain in the text. *)
Lemma strip_username_removes_inner_echo :
  strip_username "edubot" "edubot: hi edubot: there" = "hi there"
  /\ strip_username "edubot" "hi edubot: there" = "hi there"
  /\ Py.contains "edubot: " "hi edubot: there" = true
  /\ Py.contains "edubot: " (strip_username "edubot" "edubot: hi edubot: there") = false.
Proof.
  repeat split; vm_compute; reflexivity.
Qed.

(** ** Summaries of web pages *)



(** C9.  When [summarise_url] returns [None] the database is the one it
    was called on, and the cause is one of: no page or an empty page
    fetched, no text extracted, an error of the language model, a result
    holding NO CONTENT in any case of letters. *)
Theorem summarise_url_none_writes_nothing
    (platform : string) (bot_pk : Z)
    (chat_completion : list gpt_msg -> option string)
    (fetch_url extract : string -> option string)
    (db : DB) (url : string) (msg : MessageInfo) (thread_name : string) (db' : DB) :
  summarise_url platform bot_pk chat_completion fetch_url extract db url msg thread_name
    = Returns None db' ->
  db' = db
  /\ (fetch_url url = None
      \/ fetch_url url = Some EmptyString
      \/ (exists resp, fetch_url url = Some resp /\ extract resp = None)
      \/ (exists resp text gpt_context,
            fetch_url url = Some resp /\ extract resp = Some text
            /\ chat_completion gpt_context = None)
      \/ (exists resp text gpt_context completion_text,
            fetch_url url = Some resp /\ extract resp = Some text
            /\ chat_completion gpt_context = Some completion_text
            /\ Py.contains "NO CONTENT" (Py.upper completion_text) = true)).
Proof.
  unfold summarise_url. intros H.
  destruct (fetch_url url) as [resp|] eqn:Hfetch.
  2:{ injection H as <-. auto. }
  destruct (String.eqb resp EmptyString) eqn:Hempty.
  { injection H as <-. apply String.eqb_eq in Hempty. subst resp. auto. }
  destruct (extract resp) as [text|] eqn:Hextract.
  2:{ injection H as <-. split; [reflexivity|]. right. right. left. now exists resp. }
  match type of H with
  | match chat_completion ?c with _ => _ end = _ =>
      set (gpt_context := c) in *; destruct (chat_completion gpt_context)
        as [completion_text|] eqn:Hchat
  end.
  2:{ injection H as <-. split; [reflexivity|]. do 3 right. left.
      now exists resp, text, gpt_context. }
  destruct (Py.contains "NO CONTENT" (Py.upper completion_text)) eqn:Hmark.
  { injection H as <-. split; [reflexivity|]. do 4 right.
    now exists resp, text, gpt_context, completion_text. }
  destruct (ensure_thread platform db thread_name) as [thread db1].
  destruct (get_message platform db1 msg);
    match type of H with
    | match ?a with _ => _ end = _ => destruct a; discriminate
    end.
Qed.

Lemma summarise_url_none_writes_nothing_witness :
  exists db',
    summarise_url "matrix" 1 (fun _ => Some "no content") (fun _ => Some "<html>")
      (fun _ => Some "page") Sample.db_empty_room "https://example.org" Sample.hello "room"
      = Returns None db'
    /\ db' = Sample.db_empty_room.
Proof.
  eexists. split; [vm_compute; reflexivity|].
  apply (summarise_url_none_writes_nothing "matrix" 1 (fun _ => Some "no content")
           (fun _ => Some "<html>") (fun _ => Some "page") Sample.db_empty_room
           "https://example.org" Sample.hello "room" Sample.db_empty_room).
  vm_compute. reflexivity.
Defined.

(** ** Feedback *)

Lemma first_by_desc_id_fold (rows : list Completion) :
  forall best row,
    fold_left
      (fun best c =>
         match best with
         | None => Some c
         | Some b => if Completion_id b <? Completion_id c then Some c else Some b
         end)
      rows best = Some row ->
    best = Some row \/ In row rows.
Proof.
  induction rows as [|c rows IH]; intros best row H; simpl in H; [now left|].
  apply IH in H as [H | H]; [|right; now right].
  destruct best as [b|].
  - destruct (Completion_id b <? Completion_id c); injection H as <-; [right|left]; auto.
    now left.
  - injection H as <-. right. now left.
Qed.

Lemma first_by_desc_id_in (rows : list Completion) (row : Completion) :
  first_by_desc_id rows = Some row -> In row rows.
Proof.
  intros H. apply first_by_desc_id_fold in H as [H | H]; [discriminate | exact H].
Qed.

Lemma matching_completions_in (bot_pk : Z) (db : DB) (completion : CompletionInfo)
    (thread_name : string) (row : Completion) :
  In row (matching_completions bot_pk db completion thread_name) ->
  In row (completions db) /\ Completion_message row = ci_message completion.
Proof.
  unfold matching_completions. intros H.
  apply in_flat_map in H as (c & Hc & H).
  apply in_flat_map in H as (b & _ & H).
  apply in_flat_map in H as (m & _ & H).
  apply in_flat_map in H as (t & _ & H).
  match type of H with In _ (if ?cond then _ else _) => destruct cond eqn:Hcond end;
    [|destruct H].
  destruct H as [<- | []]. split; [exact Hc|].
  repeat (apply andb_true_iff in Hcond as [Hcond _]).
  now apply String.eqb_eq.
Qed.

Lemma update_other_rows (row : Completion) (score : Z) (l : list Completion) :
  ~ In (Completion_id row) (map Completion_id l) ->
  map (fun c =>
         if Z.eqb (Completion_id c) (Completion_id row)
         then {| Completion_id := Completion_id c;
                 Completion_bot := Completion_bot c;
                 Completion_message := Completion_message c;
                 Completion_reply_to := Completion_reply_to c;
                 Completion_score := score |}
         else c) l = l.
Proof.
  induction l as [|c l IH]; intros Hnotin; simpl; [reflexivity|].
  simpl in Hnotin.
  destruct (Z.eqb_spec (Completion_id c) (Completion_id row)) as [Heq | _].
  - exfalso. apply Hnotin. now left.
  - rewrite IH; [reflexivity|]. intros Hin. apply Hnotin. now right.
Qed.

(** C10.  When a completion is selected, the run changes one row of the
    table of completions and nothing else: the selected row keeps its id,
    bot, text and reply-to, and its score grows by the offset. *)
Theorem change_completion_score_frame
    (bot_pk : Z) (db : DB) (offset : Z) (completion : CompletionInfo)
    (thread_name : string) (row : Completion) :
  NoDup (map Completion_id (completions db)) ->
  first_by_desc_id (matching_completions bot_pk db completion thread_name) = Some row ->
  let db' := change_completion_score bot_pk db offset completion thread_name in
  bots db' = bots db /\ threads db' = threads db /\ messages db' = messages db
  /\ exists before after,
       completions db = (before ++ row :: after)%list
       /\ completions db'
          = (before
             ++ {| Completion_id := Completion_id row;
                   Completion_bot := Completion_bot row;
                   Completion_message := Completion_message row;
                   Completion_reply_to := Completion_reply_to row;
                   Completion_score := Completion_score row + offset |}
             :: after)%list.
Proof.
  intros Hkeys Hsel db'. subst db'. unfold change_completion_score. rewrite Hsel.
  unfold update_score. cbn [bots threads messages completions].
  repeat split.
  apply first_by_desc_id_in, matching_completions_in in Hsel as [Hin _].
  apply in_split in Hin as (before & after & Hsplit).
  exists before, after. split; [exact Hsplit|].
  rewrite Hsplit in Hkeys |- *. rewrite map_app in Hkeys. cbn [map] in Hkeys.
  apply NoDup_remove_2 in Hkeys.
  rewrite map_app. cbn [map]. rewrite Z.eqb_refl.
  rewrite !update_other_rows; [reflexivity | |];
    intros Hin; apply Hkeys, in_or_app; auto.
Qed.

Lemma change_completion_score_frame_witness :
  let db' := change_completion_score 1 Sample.db_answered 2
               (Sample.feedback_at (Sample.t0 + 30000000)) "room" in
  messages db' = messages Sample.db_answered
  /\ map Completion_score (completions db') = [2].
Proof.
  cbv zeta.
  destruct (change_completion_score_frame 1 Sample.db_answered 2
              (Sample.feedback_at (Sample.t0 + 30000000)) "room" Sample.answer)
    as (_ & _ & Hm & _).
  - vm_compute. constructor; [tauto | constructor].
  - vm_compute. reflexivity.
  - split; [exact Hm | vm_compute; reflexivity].
Defined.

(** C2, the code at the edge of the window: feedback sent exactly 90
    seconds after the message that the completion replies to changes no
    score, though the text, the bot and the thread match; a microsecond
    less and the score changes. *)
Theorem feedback_at_ninety_seconds_is_ignored :
  let at_edge := Sample.feedback_at (Sample.t0 + timedelta 1 30) in
  let inside := Sample.feedback_at (Sample.t0 + timedelta 1 30 - 1) in
  ci_time at_edge - timedelta 1 30 = Message_time Sample.question
  /\ matching_completions 1 Sample.db_answered at_edge "room" = []
  /\ change_completion_score 1 Sample.db_answered 1 at_edge "room" = Sample.db_answered
  /\ matching_completions 1 Sample.db_answered inside "room" = [Sample.answer]
  /\ map Completion_score
       (completions (change_completion_score 1 Sample.db_answered 1 inside "room"))
     = [1].
Proof.
  cbv zeta. repeat split; vm_compute; reflexivity.
Qed.

(** * Further properties *)

(** ** The estimator *)

Lemma round_half_even_div_bounds (num : Z) :
  num / 8 <= round_half_even_div num 8 <= (num + 4) / 8.
Proof.
  unfold round_half_even_div.
  pose proof (Z.div_mod num 8 ltac:(lia)) as Hdm.
  pose proof (Z.mod_pos_bound num 8 ltac:(lia)) as Hr.
  assert (Hup : (num + 4) / 8 = num / 8 + (if 4 <=? num mod 8 then 1 else 0)).
  { destruct (4 <=? num mod 8) eqn:H4.
    - apply Z.leb_le in H4. symmetry. apply Z.div_unique with (r := num mod 8 - 4); lia.
    - apply Z.leb_gt in H4. symmetry. apply Z.div_unique with (r := num mod 8 + 4); lia. }
  rewrite Hup.
  destruct (2 * (num mod 8) <? 8) eqn:H1; [apply Z.ltb_lt in H1|apply Z.ltb_ge in H1].
  - destruct (4 <=? num mod 8); lia.
  - replace (4 <=? num mod 8) with true by (symmetry; apply Z.leb_le; lia).
    destruct (8 <? 2 * (num mod 8)); [lia|].
    destruct (Z.even (num / 8)); lia.
Qed.

Lemma round_half_even_div_mono (a b : Z) :
  a <= b -> round_half_even_div a 8 <= round_half_even_div b 8.
Proof.
  intros Hab.
  destruct (Z.eq_dec (a / 8) (b / 8)) as [Hq | Hq].
  - unfold round_half_even_div. rewrite <- Hq.
    pose proof (Z.div_mod a 8 ltac:(lia)) as Ha.
    pose proof (Z.div_mod b 8 ltac:(lia)) as Hb.
    assert (Hr : a mod 8 <= b mod 8) by lia.
    destruct (2 * (a mod 8) <? 8) eqn:A1; [apply Z.ltb_lt in A1|apply Z.ltb_ge in A1];
      destruct (2 * (b mod 8) <? 8) eqn:B1; [apply Z.ltb_lt in B1|apply Z.ltb_ge in B1|
                                              apply Z.ltb_lt in B1|apply Z.ltb_ge in B1];
      try lia.
    + destruct (8 <? 2 * (b mod 8)); [lia|]. destruct (Z.even (a / 8)); lia.
    + destruct (8 <? 2 * (a mod 8)) eqn:A2;
        [apply Z.ltb_lt in A2|apply Z.ltb_ge in A2].
      * replace (8 <? 2 * (b mod 8)) with true by (symmetry; apply Z.ltb_lt; lia). lia.
      * destruct (8 <? 2 * (b mod 8)); destruct (Z.even (a / 8)); lia.
  - pose proof (Z.div_le_mono a b 8 ltac:(lia) Hab) as Hle.
    pose proof (round_half_even_div_bounds a) as [_ Hua].
    pose proof (round_half_even_div_bounds b) as [Hlb _].
    assert (Hstep : (a + 4) / 8 <= a / 8 + 1).
    { replace (a / 8 + 1) with ((a + 1 * 8) / 8) by (rewrite Z.div_add; lia).
      apply Z.div_le_mono; lia. }
    lia.
Qed.

Lemma count_char_le_length (c : ascii) (s : string) :
  (count_char c s <= String.length s)%nat.
Proof.
  induction s as [|d s IH]; simpl; [lia|]. destruct (Ascii.eqb d c); lia.
Qed.

Lemma count_char_append (c : ascii) (s t : string) :
  count_char c (s ++ t) = (count_char c s + count_char c t)%nat.
Proof.
  induction s as [|d s IH]; simpl; [reflexivity|]. rewrite IH. lia.
Qed.

(** X1.  The estimate is never negative; it is at least an eighth and at
    most half, plus one, of the number of characters. *)
Theorem estimate_tokens_bounds (text : string) :
  0 <= (Z.of_nat (String.length text) + 3) / 8
  /\ (Z.of_nat (String.length text) + 3) / 8 <= estimate_tokens text
  /\ estimate_tokens text <= (4 * Z.of_nat (String.length text) + 7) / 8.
Proof.
  rewrite estimate_tokens_closed.
  pose proof (count_char_le_length " " text) as Hc.
  set (len := Z.of_nat (String.length text)) in *.
  set (n := Z.of_nat (S (count_char " " text))).
  assert (Hn : 1 <= n <= len + 1) by (subst n len; lia).
  pose proof (round_half_even_div_bounds (len + 3 * n)) as [Hlo Hhi].
  assert (H0 : 0 <= len) by (subst len; lia).
  split; [apply Z.div_pos; lia|]. split.
  - etransitivity; [|exact Hlo]. apply Z.div_le_mono; lia.
  - etransitivity; [exact Hhi|]. apply Z.div_le_mono; lia.
Qed.

(** X2.  A longer text never has a smaller estimate: appending characters
    to a text does not lower its estimate. *)
Theorem estimate_tokens_monotone (text more : string) :
  estimate_tokens text <= estimate_tokens (text ++ more).
Proof.
  rewrite !estimate_tokens_closed, length_append, count_char_append.
  apply round_half_even_div_mono. lia.
Qed.

Lemma substring_all (s : string) : substring 0 (String.length s) s = s.
Proof. induction s as [|c s IH]; simpl; [reflexivity | now rewrite IH]. Qed.

Lemma substring_length (n : nat) :
  forall s, String.length (substring 0 n s) = Nat.min n (String.length s).
Proof.
  induction n as [|n IH]; intros [|c s]; simpl; try reflexivity.
  now rewrite IH.
Qed.

Lemma substring_substring (n : nat) :
  forall m s, substring 0 n (substring 0 m s) = substring 0 (Nat.min n m) s.
Proof.
  induction n as [|n IH]; intros m s.
  - simpl. destruct (substring 0 m s), s; reflexivity.
  - destruct m as [|m]; destruct s as [|c s]; simpl; try reflexivity.
    now rewrite IH.
Qed.

Lemma substring_is_prefix (n : nat) :
  forall s, exists rest, s = (substring 0 n s ++ rest)%string.
Proof.
  induction n as [|n IH]; intros s.
  - exists s. destruct s; reflexivity.
  - destruct s as [|c s]; [exists EmptyString; reflexivity|].
    destruct (IH s) as [rest Hrest]. exists rest. simpl. now rewrite <- Hrest.
Qed.

Lemma truncate_text_cuts (fuel : nat) :
  forall text,
    (String.length text <= fuel)%nat ->
    exists k : nat,
      truncate_text fuel text = substring 0 (String.length text - 100 * k) text
      /\ estimate_tokens (truncate_text fuel text) <= MAX_GPT_TOKENS
      /\ forall j, (j < k)%nat ->
           MAX_GPT_TOKENS < estimate_tokens (substring 0 (String.length text - 100 * j) text).
Proof.
  induction fuel as [|fuel IH]; intros text Hlen.
  - exists 0%nat. destruct text; simpl in Hlen; [|lia].
    repeat split; [vm_compute; discriminate | intros j Hj; lia].
  - cbn [truncate_text].
    destruct (MAX_GPT_TOKENS <? estimate_tokens text) eqn:Hover.
    + apply Z.ltb_lt in Hover.
      assert (Hshort : (String.length (Py.drop_last 100 text) <= fuel)%nat).
      { unfold Py.drop_last. rewrite substring_length.
        destruct text as [|c text]; [vm_compute in Hover; discriminate|].
        simpl String.length in *. lia. }
      destruct (IH _ Hshort) as (k & Hk & Hfit & Hmin).
      assert (Hl : String.length (Py.drop_last 100 text) = (String.length text - 100)%nat).
      { unfold Py.drop_last. rewrite substring_length. lia. }
      assert (Hsub : forall j,
                 substring 0 (String.length (Py.drop_last 100 text) - 100 * j)
                           (Py.drop_last 100 text)
                 = substring 0 (String.length text - 100 * S j) text).
      { intros j. rewrite Hl. unfold Py.drop_last. rewrite substring_substring.
        f_equal. lia. }
      exists (S k). split; [now rewrite Hk, Hsub|]. split; [exact Hfit|].
      intros [|j] Hj.
      * rewrite Nat.mul_0_r, Nat.sub_0_r, substring_all. exact Hover.
      * rewrite <- Hsub. apply Hmin. lia.
    + apply Z.ltb_ge in Hover. exists 0%nat.
      rewrite Nat.mul_0_r, Nat.sub_0_r, substring_all.
      repeat split; [exact Hover | intros j Hj; lia].
Qed.

(** X3.  The text that [summarise_url] sends to the language model is the
    extracted text with the least number of blocks of 100 characters cut
    from its end that brings its estimate within [MAX_GPT_TOKENS]: it is a
    prefix of the extracted text, within the budget, and every smaller
    number of blocks leaves it over the budget.  A text within the budget
    is sent whole. *)
Theorem truncate_text_least_cut (text : string) :
  exists k : nat,
    truncate_text (String.length text) text
      = substring 0 (String.length text - 100 * k) text
    /\ (exists cut, text = (truncate_text (String.length text) text ++ cut)%string)
    /\ estimate_tokens (truncate_text (String.length text) text) <= MAX_GPT_TOKENS
    /\ (forall j, (j < k)%nat ->
          MAX_GPT_TOKENS
          < estimate_tokens (substring 0 (String.length text - 100 * j) text))
    /\ (estimate_tokens text <= MAX_GPT_TOKENS -> k = 0%nat).
Proof.
  destruct (truncate_text_cuts (String.length text) text (le_n _)) as (k & Hk & Hfit & Hmin).
  exists k. split; [exact Hk|]. split; [rewrite Hk; apply substring_is_prefix|].
  split; [exact Hfit|]. split; [exact Hmin|].
  intros Hin. destruct k as [|k]; [reflexivity|].
  specialize (Hmin 0%nat ltac:(lia)).
  rewrite Nat.mul_0_r, Nat.sub_0_r, substring_all in Hmin. lia.
Qed.

Lemma truncate_text_least_cut_witness :
  truncate_text (String.length "a short page") "a short page" = "a short page".
Proof.
  destruct (truncate_text_least_cut "a short page") as (k & Hk & _ & _ & _ & Hwhole).
  rewrite Hk, Hwhole; [reflexivity|].
  vm_compute. discriminate.
Defined.

(** ** The formatter *)

Lemma format_entry_cost (username : string) (msg : MessageInfo) :
  1 <= estimate_tokens (content (format_entry username msg)).
Proof.
  rewrite estimate_tokens_closed. cbn [format_entry content].
  rewrite !length_append, !count_char_append.
  change (count_char " " ": ") with 1%nat. change (String.length ": ") with 2%nat.
  match goal with |- 1 <= round_half_even_div ?num 8 =>
    pose proof (round_half_even_div_bounds num) as [Hlo _];
    assert (Hnum : 1 <= num / 8) by (apply Z.div_le_lower_bound; lia)
  end.
  lia.
Qed.

(** X4.  [__format_context] never raises.  Its result is the five system
    entries followed by at most [MAX_GPT_TOKENS] entries, no more than the
    context has; each of them renders a message of the context as its
    author, a colon, a space and its text, with the role assistant when the
    author is the bot itself and user otherwise. *)
Theorem format_context_shape
    (username personality : string) (now_year : Z)
    (context : list MessageInfo) (personality_override : option string) :
  exists kept,
    format_context username personality now_year context personality_override
      = Some (system_messages username personality now_year personality_override ++ kept)%list
    /\ List.length (system_messages username personality now_year personality_override) = 5%nat
    /\ Forall (fun e => role e = "system")
              (system_messages username personality now_year personality_override)
    /\ (List.length kept <= List.length context)%nat
    /\ Z.of_nat (List.length kept) <= MAX_GPT_TOKENS
    /\ Forall (fun e => exists msg,
                 In msg context
                 /\ content e = (mi_username msg ++ ": " ++ mi_message msg)%string
                 /\ role e = if String.eqb (mi_username msg) username
                             then "assistant" else "user")
              kept.
Proof.
  destruct (trim_total (map (format_entry username) context))
    as (dropped & kept & Htrim & Happ & Hfit & _ & _).
  exists kept. unfold format_context. rewrite format_entries_total, Htrim.
  split; [reflexivity|]. split; [reflexivity|].
  split; [repeat constructor|].
  assert (Hlen : (List.length kept <= List.length context)%nat).
  { rewrite <- (length_map (format_entry username) context), Happ, length_app. lia. }
  split; [exact Hlen|].
  assert (Hin : forall e, In e kept -> exists msg, In msg context /\ e = format_entry username msg).
  { intros e He.
    assert (He' : In e (map (format_entry username) context))
      by (rewrite Happ; apply in_or_app; now right).
    apply in_map_iff in He' as (msg & <- & Hmsg). now exists msg. }
  split.
  - (* every kept entry costs one token at least *)
    assert (Hcost : forall l : list gpt_msg,
               (forall e, In e l -> 1 <= estimate_tokens (content e)) ->
               Z.of_nat (List.length l) <= total_cost l).
    { induction l as [|e l IH]; intros Hl; [simpl; lia|].
      cbn [total_cost fold_right List.length]. fold (total_cost l).
      pose proof (Hl e (or_introl eq_refl)).
      assert (Z.of_nat (List.length l) <= total_cost l)
        by (apply IH; intros x Hx; apply Hl; now right).
      lia. }
    etransitivity; [apply Hcost|exact Hfit].
    intros e He. destruct (Hin e He) as (msg & _ & ->). apply format_entry_cost.
  - apply Forall_forall. intros e He. destruct (Hin e He) as (msg & Hmsg & ->).
    exists msg. repeat split. exact Hmsg.
Qed.

(** ** Keys of the database *)

Lemma next_id_above (ids : list Z) (x : Z) : In x ids -> x < next_id ids.
Proof.
  unfold next_id. induction ids as [|y ids IH]; cbn [fold_right In]; [tauto|].
  intros [-> | Hin]; [lia|]. specialize (IH Hin). lia.
Qed.

Lemma next_id_fresh (ids : list Z) : ~ In (next_id ids) ids.
Proof. intros H. apply next_id_above in H. lia. Qed.

Lemma NoDup_snoc {A} (l : list A) (x : A) : NoDup l -> ~ In x l -> NoDup (l ++ [x]).
Proof.
  induction l as [|y l IH]; intros Hnd Hx; simpl.
  - constructor; [tauto | constructor].
  - inversion Hnd as [|? ? Hy Hl]; subst. constructor.
    + intros Hin. apply in_app_or in Hin as [Hin | [<- | []]]; [tauto|].
      apply Hx. now left.
    + apply IH; [exact Hl|]. intros Hin. apply Hx. now right.
Qed.

Section Keys.

Variable username : string.
Variable platform : string.
Variable bot_pk : Z.

Lemma add_bot_to_db_keyed (db : DB) :
  well_keyed db -> well_keyed (add_bot_to_db username platform db).
Proof.
  intros (Hb & Ht & Hm & Hc & Hbk & Htk). unfold add_bot_to_db.
  destruct (get_bot platform db username) eqn:Hget; [repeat split; assumption|].
  repeat split; cbn [bots threads messages completions]; try assumption;
    rewrite map_app; apply NoDup_snoc; try assumption; cbn [map].
  - apply next_id_fresh.
  - intros Hin. apply in_map_iff in Hin as (b & Hkey & Hin).
    unfold get_bot in Hget. apply (find_none _ _ Hget) in Hin.
    unfold bot_key in Hkey. cbn in Hkey. injection Hkey as Hu Hp.
    rewrite Hu, Hp, !String.eqb_refl in Hin. discriminate.
Qed.

Lemma ensure_thread_keyed (db : DB) (thread_name : string) :
  well_keyed db -> well_keyed (snd (ensure_thread platform db thread_name)).
Proof.
  intros (Hb & Ht & Hm & Hc & Hbk & Htk). unfold ensure_thread.
  destruct (get_thread platform db thread_name) eqn:Hget; [repeat split; assumption|].
  unfold insert_thread.
  repeat split; cbn [snd bots threads messages completions]; try assumption;
    rewrite map_app; apply NoDup_snoc; try assumption; cbn [map].
  - apply next_id_fresh.
  - intros Hin. apply in_map_iff in Hin as (t & Hkey & Hin).
    unfold get_thread in Hget. apply (find_none _ _ Hget) in Hin.
    unfold thread_key in Hkey. cbn in Hkey. injection Hkey as Hn Hp.
    rewrite Hn, Hp, !String.eqb_refl in Hin. discriminate.
Qed.

Lemma commit_messages_keyed (rows : list MessageInfo) :
  forall db, well_keyed db -> well_keyed (commit_messages db rows).
Proof.
  induction rows as [|row rows IH]; intros db Hk; [exact Hk|].
  cbn [commit_messages]. apply IH.
  destruct Hk as (Hb & Ht & Hm & Hc & Hbk & Htk).
  repeat split; cbn [bots threads messages completions]; try assumption.
  rewrite map_app. apply NoDup_snoc; [assumption | apply next_id_fresh].
Qed.

Lemma add_completion_keyed (db db' : DB) (text : string) (reply_to : MessageInfo) :
  add_completion platform bot_pk db text reply_to = Some db' ->
  well_keyed db -> well_keyed db'.
Proof.
  unfold add_completion. destruct (get_message platform db reply_to); [|discriminate].
  intros [= <-] (Hb & Ht & Hm & Hc & Hbk & Htk).
  repeat split; cbn [bots threads messages completions]; try assumption.
  rewrite map_app. apply NoDup_snoc; [assumption | apply next_id_fresh].
Qed.

Lemma merge_and_persist_keyed (db : DB) (new_context : list MessageInfo)
    (thread_name : string) :
  well_keyed db ->
  well_keyed (outcome_db (merge_and_persist platform db new_context thread_name)).
Proof.
  intros Hk. unfold merge_and_persist.
  pose proof (ensure_thread_keyed db thread_name Hk) as Hk1.
  destruct (ensure_thread platform db thread_name) as [thread db1]. cbn [snd] in Hk1.
  destruct new_context; cbn [outcome_db]; [exact Hk1|].
  now apply commit_messages_keyed.
Qed.

Lemma change_completion_score_keyed (db : DB) (offset : Z) (completion : CompletionInfo)
    (thread_name : string) :
  well_keyed db ->
  well_keyed (change_completion_score bot_pk db offset completion thread_name).
Proof.
  intros Hk. unfold change_completion_score.
  destruct (first_by_desc_id _); [|exact Hk].
  destruct Hk as (Hb & Ht & Hm & Hc & Hbk & Htk).
  repeat split; cbn [update_score bots threads messages completions]; try assumption.
  rewrite map_map.
  erewrite map_ext; [exact Hc|].
  intros c0. cbn. destruct (Completion_id c0 =? Completion_id c); reflexivity.
Qed.

End Keys.

(** X5.  Every public method keeps the keys of the database in order,
    whether it returns or raises: primary keys stay unique in the four
    tables, no two bots share a name on a platform and no two threads share
    a name on a platform. *)
Theorem public_methods_keep_keys_unique
    (username platform personality : string) (bot_pk : Z) (OPENAI_KEY : string)
    (chat_completion : list gpt_msg -> option string)
    (fetch_url extract : string -> option string) (now_year : Z)
    (REPLICATE_KEY : string) (Image : Type) (png_size : Image -> Z)
    (replicate_run : Image -> option string) (db : DB) :
  well_keyed db ->
  (forall db' pk, init username platform db = Some (pk, db') -> well_keyed db')
  /\ (forall new_context thread_name personality_override,
        well_keyed
          (outcome_db (gpt_answer username platform personality bot_pk OPENAI_KEY
                         chat_completion now_year db new_context thread_name
                         personality_override)))
  /\ (forall image thread_name,
        well_keyed
          (outcome_db (save_image_to_context platform REPLICATE_KEY Image png_size
                         replicate_run db image thread_name)))
  /\ (forall offset completion thread_name,
        well_keyed (change_completion_score bot_pk db offset completion thread_name))
  /\ (forall url msg thread_name,
        well_keyed
          (outcome_db (summarise_url platform bot_pk chat_completion fetch_url extract
                         db url msg thread_name))).
Proof.
  intros Hk. split; [|split; [|split; [|split]]].
  - intros db' pk. unfold init.
    destruct (get_bot platform (add_bot_to_db username platform db) username);
      [|discriminate].
    intros [= _ <-]. now apply add_bot_to_db_keyed.
  - intros new_context thread_name personality_override. unfold gpt_answer.
    destruct (String.eqb OPENAI_KEY EmptyString); [exact Hk|].
    pose proof (merge_and_persist_keyed platform db new_context thread_name Hk) as Hm.
    destruct (merge_and_persist platform db new_context thread_name)
      as [[complete window'] db1 | db1]; cbn [outcome_db] in Hm |- *; [|exact Hm].
    destruct (format_context _ _ _ complete _); [|exact Hm].
    destruct (chat_completion l); [|exact Hm].
    destruct (rev window'); [exact Hm|].
    destruct (add_completion platform bot_pk db1 _ m) eqn:Hadd; [|exact Hm].
    cbn [outcome_db]. eapply add_completion_keyed; eassumption.
  - intros image thread_name. unfold save_image_to_context.
    destruct (String.eqb REPLICATE_KEY EmptyString); [exact Hk|].
    destruct (too_large Image png_size image); [exact Hk|].
    destruct (replicate_run (ii_image image)); [|exact Hk].
    destruct (String.eqb s EmptyString); [exact Hk|].
    pose proof (ensure_thread_keyed platform db thread_name Hk) as Hk1.
    destruct (ensure_thread platform db thread_name) as [thread db1]. cbn [snd] in Hk1.
    cbn [outcome_db]. now apply commit_messages_keyed.
  - intros offset completion thread_name. now apply change_completion_score_keyed.
  - intros url msg thread_name. unfold summarise_url.
    destruct (fetch_url url); [|exact Hk].
    destruct (String.eqb s EmptyString); [exact Hk|].
    destruct (extract s); [|exact Hk].
    destruct (chat_completion _); [|exact Hk].
    destruct (Py.contains "NO CONTENT" (Py.upper s1)); [exact Hk|].
    pose proof (ensure_thread_keyed platform db thread_name Hk) as Hk1.
    destruct (ensure_thread platform db thread_name) as [thread db1]. cbn [snd] in Hk1.
    destruct (get_message platform db1 msg).
    + destruct (add_completion platform bot_pk db1 _ msg) eqn:Hadd;
        cbn [outcome_db]; [|exact Hk1].
      eapply add_completion_keyed; eassumption.
    + match goal with
      | |- context [add_completion platform bot_pk ?d ?t ?r] =>
          destruct (add_completion platform bot_pk d t r) eqn:Hadd
      end; cbn [outcome_db].
      * eapply add_completion_keyed; [eassumption|]. now apply commit_messages_keyed.
      * now apply commit_messages_keyed.
Qed.

Lemma public_methods_keep_keys_unique_witness :
  well_keyed Sample.db_answered
  /\ well_keyed (change_completion_score 1 Sample.db_answered 2
                   (Sample.feedback_at (Sample.t0 + 30000000)) "room").
Proof.
  assert (Hk : well_keyed Sample.db_answered).
  { unfold well_keyed. cbn.
    repeat split; repeat (constructor; [simpl; tauto|]); constructor. }
  split; [exact Hk|].
  apply (public_methods_keep_keys_unique
           "edubot" "matrix" "kind" 1 "key" (fun _ => None) (fun _ => None)
           (fun _ => None) 2023 "key" unit (fun _ => 0) (fun _ => None)
           Sample.db_answered Hk).
Defined.

(** ** References of the database *)

Section References.

Variable platform : string.
Variable bot_pk : Z.

Lemma ensure_thread_referenced (db : DB) (thread_name : string) :
  well_referenced db -> well_referenced (snd (ensure_thread platform db thread_name)).
Proof.
  intros [Hm Hc]. unfold ensure_thread.
  destruct (get_thread platform db thread_name); [split; assumption|].
  split; cbn [snd insert_thread threads messages completions]; [|exact Hc].
  intros m Hin. destruct (Hm m Hin) as (t & Ht & Hid).
  exists t. split; [apply in_or_app; now left | exact Hid].
Qed.

Lemma commit_messages_referenced (rows : list MessageInfo) :
  forall db,
    (forall row, In row rows ->
                 exists t, In t (threads db) /\ mi_thread row = Some (Thread_id t)) ->
    well_referenced db -> well_referenced (commit_messages db rows).
Proof.
  induction rows as [|row rows IH]; intros db Hrows Href; [exact Href|].
  cbn [commit_messages]. apply IH.
  - cbn [threads]. intros r Hr. apply Hrows. now right.
  - destruct Href as [Hm Hc]. split; cbn [threads messages completions].
    + intros m Hin. apply in_app_or in Hin as [Hin | [<- | []]]; [now apply Hm|].
      destruct (Hrows row (or_introl eq_refl)) as (t & Ht & Hsome).
      exists t. cbn. now rewrite Hsome.
    + intros c Hin. destruct (Hc c Hin) as (m & Hmin & Hid).
      exists m. split; [apply in_or_app; now left | exact Hid].
Qed.

Lemma add_completion_referenced (db db' : DB) (text : string) (reply_to : MessageInfo) :
  add_completion platform bot_pk db text reply_to = Some db' ->
  well_referenced db -> well_referenced db'.
Proof.
  unfold add_completion.
  destruct (get_message platform db reply_to) as [m|] eqn:Hget; [|discriminate].
  intros [= <-] [Hm Hc]. split; cbn [threads messages completions]; [exact Hm|].
  intros c Hin. apply in_app_or in Hin as [Hin | [<- | []]]; [now apply Hc|].
  apply get_message_sound in Hget as [Hin _]. now exists m.
Qed.

Lemma merge_and_persist_referenced (db : DB) (new_context : list MessageInfo)
    (thread_name : string) :
  well_referenced db ->
  well_referenced (outcome_db (merge_and_persist platform db new_context thread_name)).
Proof.
  intros Href. unfold merge_and_persist.
  pose proof (ensure_thread_referenced db thread_name Href) as Href1.
  pose proof (ensure_thread_found platform db thread_name) as (_ & Hin & _).
  destruct (ensure_thread platform db thread_name) as [thread db1]. cbn [fst snd] in *.
  destruct new_context as [|first rest]; cbn [outcome_db]; [exact Href1|].
  apply commit_messages_referenced; [|exact Href1].
  intros row Hrow. rewrite merge_loop_added in Hrow.
  apply added_origin in Hrow as (_ & _ & _ & Hsome & _).
  now exists thread.
Qed.

Lemma change_completion_score_referenced (db : DB) (offset : Z)
    (completion : CompletionInfo) (thread_name : string) :
  well_referenced db ->
  well_referenced (change_completion_score bot_pk db offset completion thread_name).
Proof.
  intros Href. unfold change_completion_score.
  destruct (first_by_desc_id _) as [row|]; [|exact Href].
  destruct Href as [Hm Hc]. split; cbn [update_score threads messages completions];
    [exact Hm|].
  intros c Hin. apply in_map_iff in Hin as (c0 & <- & Hin0).
  destruct (Hc c0 Hin0) as (m & Hmin & Hid). exists m. split; [exact Hmin|].
  destruct (Completion_id c0 =? Completion_id row); exact Hid.
Qed.

End References.

(** X6.  Every public method keeps the references of the database
    resolved, whether it returns or raises: each message is under a thread
    that exists and each completion replies to a message that exists. *)
Theorem public_methods_keep_references
    (username platform personality : string) (bot_pk : Z) (OPENAI_KEY : string)
    (chat_completion : list gpt_msg -> option string)
    (fetch_url extract : string -> option string) (now_year : Z)
    (REPLICATE_KEY : string) (Image : Type) (png_size : Image -> Z)
    (replicate_run : Image -> option string) (db : DB) :
  well_referenced db ->
  (forall db' pk, init username platform db = Some (pk, db') -> well_referenced db')
  /\ (forall new_context thread_name personality_override,
        well_referenced
          (outcome_db (gpt_answer username platform personality bot_pk OPENAI_KEY
                         chat_completion now_year db new_context thread_name
                         personality_override)))
  /\ (forall image thread_name,
        well_referenced
          (outcome_db (save_image_to_context platform REPLICATE_KEY Image png_size
                         replicate_run db image thread_name)))
  /\ (forall offset completion thread_name,
        well_referenced (change_completion_score bot_pk db offset completion thread_name))
  /\ (forall url msg thread_name,
        well_referenced
          (outcome_db (summarise_url platform bot_pk chat_completion fetch_url extract
                         db url msg thread_name))).
Proof.
  intros Href. split; [|split; [|split; [|split]]].
  - intros db' pk. unfold init.
    destruct (get_bot platform (add_bot_to_db username platform db) username);
      [|discriminate].
    intros [= _ <-]. unfold add_bot_to_db.
    destruct (get_bot platform db username); exact Href.
  - intros new_context thread_name personality_override. unfold gpt_answer.
    destruct (String.eqb OPENAI_KEY EmptyString); [exact Href|].
    pose proof (merge_and_persist_referenced platform db new_context thread_name Href) as Hm.
    destruct (merge_and_persist platform db new_context thread_name)
      as [[complete window'] db1 | db1]; cbn [outcome_db] in Hm |- *; [|exact Hm].
    destruct (format_context _ _ _ complete _) as [gpt_context|]; [|exact Hm].
    destruct (chat_completion gpt_context) as [response|]; [|exact Hm].
    destruct (rev window') as [|reply_to ?]; [exact Hm|].
    destruct (add_completion platform bot_pk db1 _ reply_to) eqn:Hadd; [|exact Hm].
    cbn [outcome_db]. eapply add_completion_referenced; eassumption.
  - intros image thread_name. unfold save_image_to_context.
    destruct (String.eqb REPLICATE_KEY EmptyString); [exact Href|].
    destruct (too_large Image png_size image); [exact Href|].
    destruct (replicate_run (ii_image image)) as [output|]; [|exact Href].
    destruct (String.eqb output EmptyString); [exact Href|].
    pose proof (ensure_thread_referenced platform db thread_name Href) as Href1.
    pose proof (ensure_thread_found platform db thread_name) as (_ & Hin & _).
    destruct (ensure_thread platform db thread_name) as [thread db1]. cbn [fst snd] in *.
    cbn [outcome_db]. apply commit_messages_referenced; [|exact Href1].
    intros row [<- | []]. now exists thread.
  - intros offset completion thread_name. now apply change_completion_score_referenced.
  - intros url msg thread_name. unfold summarise_url.
    destruct (fetch_url url) as [resp|]; [|exact Href].
    destruct (String.eqb resp EmptyString); [exact Href|].
    destruct (extract resp) as [text|]; [|exact Href].
    destruct (chat_completion _) as [completion_text|]; [|exact Href].
    destruct (Py.contains "NO CONTENT" (Py.upper completion_text)); [exact Href|].
    pose proof (ensure_thread_referenced platform db thread_name Href) as Href1.
    pose proof (ensure_thread_found platform db thread_name) as (_ & Hin & _).
    destruct (ensure_thread platform db thread_name) as [thread db1]. cbn [fst snd] in *.
    assert (Hrow : forall row,
               In row [{| mi_username := mi_username msg; mi_message := mi_message msg;
                          mi_time := mi_time msg; mi_thread := Some (Thread_id thread) |}] ->
               exists t, In t (threads db1) /\ mi_thread row = Some (Thread_id t))
      by (intros row [<- | []]; now exists thread).
    destruct (get_message platform db1 msg).
    + destruct (add_completion platform bot_pk db1 _ msg) eqn:Hadd;
        cbn [outcome_db]; [|exact Href1].
      eapply add_completion_referenced; eassumption.
    + match goal with
      | |- context [add_completion platform bot_pk ?d ?t ?r] =>
          destruct (add_completion platform bot_pk d t r) eqn:Hadd
      end; cbn [outcome_db].
      * eapply add_completion_referenced; [eassumption|].
        now apply commit_messages_referenced.
      * now apply commit_messages_referenced.
Qed.

Lemma public_methods_keep_references_witness :
  well_referenced Sample.db_answered
  /\ well_referenced
       (outcome_db (summarise_url "matrix" 1 (fun _ => Some "A summary.")
                      (fun _ => Some "<html>") (fun _ => Some "page")
                      Sample.db_answered "https://example.org" Sample.hello "lobby")).
Proof.
  assert (Href : well_referenced Sample.db_answered).
  { split; cbn.
    - intros m [<- | []]. exists Sample.room. split; [now left | reflexivity].
    - intros c [<- | []]. exists Sample.question. split; [now left | reflexivity]. }
  split; [exact Href|].
  apply (public_methods_keep_references
           "edubot" "matrix" "kind" 1 "key" (fun _ => Some "A summary.")
           (fun _ => Some "<html>") (fun _ => Some "page") 2023 "key" unit
           (fun _ => 0) (fun _ => None) Sample.db_answered Href).
Defined.

(** ** Bots and threads *)

Lemma find_app_some {A} (f : A -> bool) (l l' : list A) (x : A) :
  find f l = Some x -> find f (l ++ l') = Some x.
Proof.
  induction l as [|y r IH]; simpl; [discriminate|].
  destruct (f y); [tauto | exact IH].
Qed.

(** X7.  Constructing the bot never raises.  It leaves a bot of this name on
    this platform in the database, whose key it keeps; the other tables are
    untouched and the table of bots grows by that one row at most.
    Constructing the bot again gives the same key and changes nothing. *)
Theorem init_registers_bot_once (username platform : string) (db : DB) :
  exists bot,
    let db' := add_bot_to_db username platform db in
    init username platform db = Some (Bot_id bot, db')
    /\ get_bot platform db' username = Some bot
    /\ In bot (bots db')
    /\ Bot_username bot = username /\ Bot_platform bot = platform
    /\ (bots db' = bots db \/ bots db' = (bots db ++ [bot])%list)
    /\ threads db' = threads db /\ messages db' = messages db
    /\ completions db' = completions db
    /\ init username platform db' = Some (Bot_id bot, db').
Proof.
  assert (Hfound : exists bot,
             get_bot platform (add_bot_to_db username platform db) username = Some bot
             /\ (bots (add_bot_to_db username platform db) = bots db
                 \/ bots (add_bot_to_db username platform db) = (bots db ++ [bot])%list)).
  { unfold add_bot_to_db. destruct (get_bot platform db username) as [b|] eqn:Hget.
    - exists b. auto.
    - eexists. split; [|right; reflexivity].
      unfold get_bot in *. cbn [bots]. rewrite (find_app_none _ _ _ Hget).
      cbn. now rewrite !String.eqb_refl. }
  destruct Hfound as (bot & Hget & Hbots). exists bot. cbv zeta.
  assert (Hagain : add_bot_to_db username platform (add_bot_to_db username platform db)
                   = add_bot_to_db username platform db)
    by (unfold add_bot_to_db at 1; now rewrite Hget).
  pose proof Hget as Hsome. unfold get_bot in Hsome.
  apply find_some in Hsome as [Hin Hcond].
  apply andb_true_iff in Hcond as [Hu Hp].
  apply String.eqb_eq in Hu. apply String.eqb_eq in Hp.
  unfold init. rewrite Hagain, Hget.
  repeat split; try assumption;
    unfold add_bot_to_db; destruct (get_bot platform db username); reflexivity.
Qed.

(** X8.  Looking a thread up or creating it: the thread handed back has the
    name asked for and the platform of the bot and is found by a lookup
    afterwards; asking again hands the same thread back and changes
    nothing; a thread that was found before is found still; only the table
    of threads can grow, by this thread. *)
Theorem ensure_thread_get_or_create (platform : string) (db : DB) (thread_name : string) :
  let thread := fst (ensure_thread platform db thread_name) in
  let db' := snd (ensure_thread platform db thread_name) in
  get_thread platform db' thread_name = Some thread
  /\ Thread_thread_name thread = thread_name
  /\ Thread_platform thread = platform
  /\ ensure_thread platform db' thread_name = (thread, db')
  /\ (forall name t, get_thread platform db name = Some t ->
                     get_thread platform db' name = Some t)
  /\ (threads db' = threads db \/ threads db' = (threads db ++ [thread])%list)
  /\ bots db' = bots db /\ messages db' = messages db /\ completions db' = completions db.
Proof.
  cbv zeta.
  destruct (ensure_thread_found platform db thread_name) as (Hget & Hin & Hplat).
  destruct (ensure_thread_tables platform db thread_name) as (Hb & Hm & Hc).
  split; [exact Hget|].
  split.
  { pose proof Hget as Hsome. unfold get_thread in Hsome.
    apply find_some in Hsome as [_ Hcond].
    apply andb_true_iff in Hcond as [Hn _]. now apply String.eqb_eq. }
  split; [exact Hplat|].
  split; [now apply ensure_thread_again|].
  split.
  { intros name t Ht. unfold ensure_thread.
    destruct (get_thread platform db thread_name); [exact Ht|].
    unfold get_thread, insert_thread in *. cbn [snd threads].
    now apply find_app_some. }
  split; [|auto].
  unfold ensure_thread. destruct (get_thread platform db thread_name); [now left|].
  right. reflexivity.
Qed.

(** ** Captions of images *)

Section Captions.

Variable platform : string.
Variable REPLICATE_KEY : string.
Variable Image : Type.
Variable png_size : Image -> Z.
Variable replicate_run : Image -> option string.

Lemma too_large_iff (image : ImageInfo Image) :
  too_large Image png_size image = true
  <-> MAX_IMAGE_SIZE_MB * 1048576 < png_size (ii_image image).
Proof.
  unfold too_large. rewrite negb_true_iff.
  destruct (Qle_bool (inject_Z (png_size (ii_image image)) / 1048576)
                     (inject_Z MAX_IMAGE_SIZE_MB)) eqn:Hle.
  - apply Qle_bool_iff in Hle. unfold Qle in Hle. cbn -[Z.mul] in Hle.
    unfold MAX_IMAGE_SIZE_MB in *. split; [discriminate | lia].
  - split; [intros _ | reflexivity].
    destruct (Z_lt_le_dec (MAX_IMAGE_SIZE_MB * 1048576) (png_size (ii_image image)))
      as [Hlt | Hge]; [exact Hlt|].
    assert (Htrue : Qle_bool (inject_Z (png_size (ii_image image)) / 1048576)
                             (inject_Z MAX_IMAGE_SIZE_MB) = true).
    { apply Qle_bool_iff. unfold Qle. cbn -[Z.mul]. unfold MAX_IMAGE_SIZE_MB in *. lia. }
    congruence.
Qed.

(** X9.  [save_image_to_context] writes nothing unless it returns a
    caption.  Without a key it raises; an image of more than 50 times
    1048576 bytes, an image the service gives no caption for and an empty
    caption make it return [None]; in each case the database is the one it
    was called on.  An image of exactly 50 megabytes is not too large. *)
Theorem save_image_to_context_rejects_without_writing
    (db : DB) (image : ImageInfo Image) (thread_name : string) :
  let result :=
    save_image_to_context platform REPLICATE_KEY Image png_size replicate_run
      db image thread_name in
  (REPLICATE_KEY = EmptyString -> result = Raises db)
  /\ (REPLICATE_KEY <> EmptyString ->
      52428800 < png_size (ii_image image) -> result = Returns None db)
  /\ (REPLICATE_KEY <> EmptyString ->
      png_size (ii_image image) <= 52428800 ->
      replicate_run (ii_image image) = None
      \/ replicate_run (ii_image image) = Some EmptyString ->
      result = Returns None db)
  /\ ((forall output db', result <> Returns (Some output) db') -> outcome_db result = db).
Proof.
  cbv zeta. unfold save_image_to_context.
  split; [intros ->; reflexivity|].
  split.
  { intros Hkey Hbig. apply String.eqb_neq in Hkey. rewrite Hkey.
    replace (too_large Image png_size image) with true; [reflexivity|].
    symmetry. apply too_large_iff. unfold MAX_IMAGE_SIZE_MB. lia. }
  split.
  { intros Hkey Hsmall Hcaption. apply String.eqb_neq in Hkey. rewrite Hkey.
    replace (too_large Image png_size image) with false.
    - destruct Hcaption as [-> | ->]; reflexivity.
    - symmetry. apply not_true_iff_false. rewrite too_large_iff.
      unfold MAX_IMAGE_SIZE_MB. lia. }
  intros Hnot.
  destruct (String.eqb REPLICATE_KEY EmptyString); [reflexivity|].
  destruct (too_large Image png_size image); [reflexivity|].
  destruct (replicate_run (ii_image image)) as [output|]; [|reflexivity].
  destruct (String.eqb output EmptyString); [reflexivity|].
  destruct (ensure_thread platform db thread_name) as [thread db1].
  exfalso. eapply Hnot. reflexivity.
Qed.

(** X10.  When [save_image_to_context] returns a caption it has stored
    exactly one new message, after the messages that were there: the
    author and the time are those of the image, the text is the caption
    after '*An image of ', and its thread is the thread of that name on the
    platform, created if it was not there.  It stores the message without
    looking for an equal one.  The caption returned is that of the service,
    and bots and completions are untouched. *)
Theorem save_image_to_context_stores_caption
    (db db' : DB) (image : ImageInfo Image) (thread_name output : string) :
  save_image_to_context platform REPLICATE_KEY Image png_size replicate_run
    db image thread_name = Returns (Some output) db' ->
  replicate_run (ii_image image) = Some output
  /\ output <> EmptyString
  /\ png_size (ii_image image) <= 52428800
  /\ exists thread m,
       get_thread platform db' thread_name = Some thread
       /\ messages db' = (messages db ++ [m])%list
       /\ Message_thread m = Thread_id thread
       /\ Message_username m = ii_username image
       /\ Message_message m = ("*An image of " ++ output)%string
       /\ Message_time m = ii_time image
       /\ threads db' = threads (snd (ensure_thread platform db thread_name))
       /\ bots db' = bots db /\ completions db' = completions db.
Proof.
  unfold save_image_to_context.
  destruct (String.eqb REPLICATE_KEY EmptyString); [discriminate|].
  destruct (too_large Image png_size image) eqn:Hlarge; [discriminate|].
  destruct (replicate_run (ii_image image)) as [out|]; [|discriminate].
  destruct (String.eqb out EmptyString) eqn:Hempty; [discriminate|].
  pose proof (ensure_thread_found platform db thread_name) as (Hget & _ & _).
  pose proof (ensure_thread_tables platform db thread_name) as (Hb & Hm & Hc).
  destruct (ensure_thread platform db thread_name) as [thread db1]. cbn [fst snd] in *.
  intros [= -> <-].
  split; [reflexivity|]. split; [now apply String.eqb_neq|].
  split.
  { destruct (Z_lt_le_dec 52428800 (png_size (ii_image image))) as [Hlt|Hle]; [|exact Hle].
    assert (too_large Image png_size image = true)
      by (apply too_large_iff; unfold MAX_IMAGE_SIZE_MB; lia).
    congruence. }
  eexists thread, _. cbn [commit_messages messages threads bots completions].
  rewrite <- Hm. repeat split; assumption.
Qed.

End Captions.

Lemma save_image_to_context_rejects_without_writing_witness :
  save_image_to_context "matrix" "key" unit (fun _ => 60000000) (fun _ => Some "a cat")
    Sample.db_empty_room
    {| ii_image := tt; ii_username := "alice"; ii_time := 3000000 |} "room"
  = Returns None Sample.db_empty_room.
Proof.
  apply (proj1 (proj2 (save_image_to_context_rejects_without_writing
                         "matrix" "key" unit (fun _ => 60000000) (fun _ => Some "a cat")
                         Sample.db_empty_room
                         {| ii_image := tt; ii_username := "alice"; ii_time := 3000000 |}
                         "room"))).
  - discriminate.
  - reflexivity.
Defined.

Lemma save_image_to_context_stores_caption_witness :
  exists db',
    save_image_to_context "matrix" "key" unit (fun _ => 52428800) (fun _ => Some "a cat")
      Sample.db_empty_room
      {| ii_image := tt; ii_username := "alice"; ii_time := 3000000 |} "room"
    = Returns (Some "a cat") db'
    /\ exists m, messages db' = [m] /\ Message_message m = "*An image of a cat".
Proof.
  eexists. split; [vm_compute; reflexivity|].
  destruct (save_image_to_context_stores_caption
              "matrix" "key" unit (fun _ => 52428800) (fun _ => Some "a cat")
              Sample.db_empty_room _
              {| ii_image := tt; ii_username := "alice"; ii_time := 3000000 |}
              "room" "a cat" eq_refl)
    as (_ & _ & _ & thread & m & _ & Hm & _ & _ & Htext & _).
  exists m. split; [exact Hm | exact Htext].
Defined.

(** ** The shape of the merged context *)

Lemma count_info_app (x : MessageInfo) (l l' : list MessageInfo) :
  count_info x (l ++ l') = (count_info x l + count_info x l')%nat.
Proof. unfold count_info. now rewrite filter_app, length_app. Qed.

Lemma count_info_in (x : MessageInfo) (l : list MessageInfo) :
  In x l <-> (0 < count_info x l)%nat.
Proof.
  unfold count_info. induction l as [|y l IH]; simpl; [split; [tauto | lia]|].
  destruct (MessageInfo_eqb x y) eqn:Heq.
  - apply MessageInfo_eqb_eq in Heq. subst. simpl. split; [lia | now left].
  - rewrite <- IH. split; [|tauto].
    intros [-> | H]; [|exact H].
    rewrite (proj2 (MessageInfo_eqb_eq x x) eq_refl) in Heq. discriminate.
Qed.

Lemma count_info_remove (x extra : MessageInfo) (l : list MessageInfo) :
  In extra l ->
  (count_info x (Py.list_remove MessageInfo_eqb extra l)
   + (if MessageInfo_eqb x extra then 1 else 0))%nat
  = count_info x l.
Proof.
  unfold count_info. induction l as [|y l IH]; intros Hin; [destruct Hin|].
  simpl. destruct (MessageInfo_eqb y extra) eqn:Hy.
  - apply MessageInfo_eqb_eq in Hy. subst y.
    destruct (MessageInfo_eqb x extra); simpl; lia.
  - destruct Hin as [-> | Hin].
    { rewrite (proj2 (MessageInfo_eqb_eq extra extra) eq_refl) in Hy. discriminate. }
    specialize (IH Hin). simpl.
    destruct (MessageInfo_eqb x y); simpl; lia.
Qed.

Lemma scan_pool_structure (fuel : nat) :
  forall pos new_context index msg existing complete existing' complete',
    scan_pool fuel pos new_context index msg existing complete = (existing', complete') ->
    exists moved,
      complete' = (complete ++ moved)%list
      /\ (forall x, (count_info x existing' + count_info x moved)%nat
                    = count_info x existing)
      /\ Forall (fun x => In x existing /\ check new_context index msg x = true) moved.
Proof.
  induction fuel as [|fuel IH]; intros pos nc index msg existing complete e' c' H;
    simpl in H.
  - injection H as <- <-. exists []. rewrite app_nil_r.
    repeat split; auto; intros x; unfold count_info; simpl; lia.
  - destruct (nth_error existing pos) as [extra|] eqn:Hnth.
    2:{ injection H as <- <-. exists []. rewrite app_nil_r.
        repeat split; auto; intros x; unfold count_info; simpl; lia. }
    pose proof (nth_error_In _ _ Hnth) as Hin.
    destruct (check nc index msg extra) eqn:Hcheck.
    + apply IH in H as (moved & Hc & Hcount & Hall).
      exists (extra :: moved). split; [now rewrite Hc, <- app_assoc|]. split.
      * intros x. specialize (Hcount x).
        pose proof (count_info_remove x extra existing Hin) as Hrem.
        change (extra :: moved) with ([extra] ++ moved)%list.
        rewrite count_info_app. unfold count_info at 2. simpl.
        destruct (MessageInfo_eqb x extra); simpl in *; lia.
      * constructor; [now split|].
        eapply Forall_impl; [|exact Hall].
        intros x [Hx Hch]. split; [eapply list_remove_incl, Hx | exact Hch].
    + now apply IH in H.
Qed.

Section Shape.

Variable platform : string.
Variable db : DB.
Variable thread : Thread.
Variable new_context : list MessageInfo.

Lemma merge_fold_structure (ims : list (nat * MessageInfo)) :
  forall st,
    exists placed,
      List.length placed = List.length ims
      /\ st_complete (fold_left (merge_body platform db thread new_context) ims st)
         = (st_complete st
            ++ interleave placed
                 (map (fun im => fst (persist_entry platform db thread (snd im))) ims))%list
      /\ (forall x,
            (count_info x
               (st_existing (fold_left (merge_body platform db thread new_context) ims st))
             + count_info x (List.concat placed))%nat
            = count_info x (st_existing st)).
Proof.
  induction ims as [|[index msg] ims IH]; intros st.
  - exists []. simpl. rewrite app_nil_r.
    repeat split; auto; intros x; unfold count_info; simpl; lia.
  - cbn [fold_left].
    destruct (IH (merge_body platform db thread new_context st (index, msg)))
      as (placed & Hlen & Hc & Hcount).
    unfold merge_body in Hc, Hcount |- *.
    destruct (scan_pool _ 0 new_context index msg (st_existing st) (st_complete st))
      as [existing complete] eqn:Hscan.
    apply scan_pool_structure in Hscan as (moved & Hmoved & Hcmoved & _).
    destruct (persist_entry platform db thread msg) as [msg' rows] eqn:Hp.
    cbn [st_existing st_complete] in Hc, Hcount.
    exists (moved :: placed). split; [simpl; now rewrite Hlen|]. split.
    + rewrite Hc, Hmoved. cbn [map interleave snd]. rewrite Hp. cbn [fst].
      rewrite <- !app_assoc. reflexivity.
    + intros x. cbn [List.concat]. rewrite count_info_app.
      specialize (Hcount x). specialize (Hcmoved x). lia.
Qed.

Lemma merge_loop_structure (pool : list MessageInfo) :
  exists placed,
    List.length placed = List.length new_context
    /\ st_complete (merge_loop platform db thread new_context pool)
       = interleave placed (st_window (merge_loop platform db thread new_context pool))
    /\ (forall x, (count_info x (List.concat placed) <= count_info x pool)%nat).
Proof.
  unfold merge_loop.
  set (st0 := {| st_existing := pool; st_complete := []; st_added := []; st_window := [] |}).
  destruct (merge_fold_structure (enumerate new_context) st0) as (placed & Hlen & Hc & Hcount).
  destruct (merge_fold_added platform db thread new_context (enumerate new_context) st0)
    as [_ Hw].
  exists placed. split.
  - rewrite Hlen. unfold enumerate. rewrite length_combine, length_seq. lia.
  - split; [now rewrite Hc, Hw|].
    intros x. specialize (Hcount x). cbn [st0 st_existing] in Hcount. lia.
Qed.

End Shape.

(** X11.  The merged context is the window as the run leaves it, in its
    order, with entries of the pool placed before some of its entries and
    nothing else; an entry of the pool is placed no more often than the
    pool holds it. *)
Theorem merged_context_interleaves_window
    (platform : string) (db : DB) (first : MessageInfo) (rest : list MessageInfo)
    (thread_name : string) :
  exists complete window' db' placed,
    merge_and_persist platform db (first :: rest) thread_name
      = Returns (complete, window') db'
    /\ map mi_tuple window' = map mi_tuple (first :: rest)
    /\ List.length placed = List.length window'
    /\ complete = interleave placed window'
    /\ forall x,
         (count_info x (List.concat placed)
          <= count_info x
               (existing_context (snd (ensure_thread platform db thread_name))
                  (fst (ensure_thread platform db thread_name))
                  (first :: rest) (mi_time first)))%nat.
Proof.
  unfold merge_and_persist.
  destruct (ensure_thread platform db thread_name) as [thread db1]. cbn [fst snd].
  set (pool := existing_context db1 thread (first :: rest) (mi_time first)).
  destruct (merge_loop_structure platform db1 thread (first :: rest) pool)
    as (placed & Hlen & Hc & Hcount).
  assert (Hw : st_window (merge_loop platform db1 thread (first :: rest) pool)
               = map (fun msg => fst (persist_entry platform db1 thread msg)) (first :: rest)).
  { unfold merge_loop.
    destruct (merge_fold_added platform db1 thread (first :: rest) (enumerate (first :: rest))
                {| st_existing := pool; st_complete := []; st_added := []; st_window := [] |})
      as [_ Hw].
    rewrite Hw. cbn [st_window app].
    rewrite <- (enumerate_map_snd (first :: rest)) at 2. now rewrite map_map. }
  do 3 eexists. exists placed. split; [reflexivity|].
  split.
  { rewrite Hw, map_map. apply map_ext. intros msg.
    destruct (persist_entry_cases platform db1 thread msg) as [[-> _] | [-> _]]; reflexivity. }
  split; [now rewrite Hw, length_map|].
  split; [exact Hc | exact Hcount].
Qed.

(** X12.  When the store holds no message of the thread later than the
    first entry of the window, other than the entries of the window
    themselves, the merged context is the window. *)
Theorem merge_with_empty_pool_is_window
    (platform : string) (db : DB) (first : MessageInfo) (rest : list MessageInfo)
    (thread_name : string) :
  existing_context (snd (ensure_thread platform db thread_name))
    (fst (ensure_thread platform db thread_name)) (first :: rest) (mi_time first) = [] ->
  exists window' db',
    merge_and_persist platform db (first :: rest) thread_name
      = Returns (window', window') db'
    /\ map mi_tuple window' = map mi_tuple (first :: rest).
Proof.
  intros Hpool. unfold merge_and_persist.
  destruct (ensure_thread platform db thread_name) as [thread db1]. cbn [fst snd] in Hpool.
  rewrite Hpool.
  destruct (merge_loop_structure platform db1 thread (first :: rest) [])
    as (placed & Hlen & Hc & Hcount).
  assert (Hnil : forall l, In l placed -> l = []).
  { intros l Hl. destruct l as [|x l]; [reflexivity|].
    specialize (Hcount x). unfold count_info at 2 in Hcount. simpl in Hcount.
    assert (Hin : In x (List.concat placed))
      by (apply in_concat; exists (x :: l); split; [exact Hl | now left]).
    apply count_info_in in Hin. lia. }
  assert (Hsame : forall (p : list (list MessageInfo)) (w : list MessageInfo),
             (forall l, In l p -> l = []) -> List.length p = List.length w ->
             interleave p w = w).
  { induction p as [|l p IH]; intros [|x w] Hp Hl; simpl in Hl; try lia; [reflexivity|].
    cbn [interleave]. rewrite (Hp l (or_introl eq_refl)). cbn [app]. f_equal.
    apply IH; [intros l' Hl'; apply Hp; now right | lia]. }
  assert (Hw : st_window (merge_loop platform db1 thread (first :: rest) [])
               = map (fun msg => fst (persist_entry platform db1 thread msg)) (first :: rest)).
  { unfold merge_loop.
    destruct (merge_fold_added platform db1 thread (first :: rest) (enumerate (first :: rest))
                {| st_existing := []; st_complete := []; st_added := []; st_window := [] |})
      as [_ Hw].
    rewrite Hw. cbn [st_window app].
    rewrite <- (enumerate_map_snd (first :: rest)) at 2. now rewrite map_map. }
  rewrite Hc, Hsame; [|exact Hnil|now rewrite Hlen, Hw, length_map].
  do 2 eexists. split; [reflexivity|].
  rewrite Hw, map_map. apply map_ext. intros msg.
  destruct (persist_entry_cases platform db1 thread msg) as [[-> _] | [-> _]]; reflexivity.
Qed.

Lemma merge_with_empty_pool_is_window_witness :
  exists window' db',
    merge_and_persist "matrix" Sample.db_empty_room Sample.window "room"
      = Returns (window', window') db'
    /\ map mi_tuple window' = map mi_tuple Sample.window.
Proof.
  apply (merge_with_empty_pool_is_window "matrix" Sample.db_empty_room
           Sample.hello [Sample.bye] "room").
  reflexivity.
Defined.

(** ** Chronological order of the merged context *)

Lemma in_skipn {A} (n : nat) : forall (l : list A) (x : A), In x (skipn n l) -> In x l.
Proof.
  induction n as [|n IH]; intros [|y l] x H; simpl in *; auto.
Qed.

Lemma in_skipn_S {A} (n : nat) :
  forall (l : list A) (x : A), In x (skipn (S n) l) -> In x (skipn n l).
Proof.
  induction n as [|n IH]; intros [|y l] x H; simpl in *; auto.
Qed.

Lemma nth_error_in_skipn {A} (n : nat) :
  forall (l : list A) (x : A), nth_error l n = Some x -> In x (skipn n l).
Proof.
  induction n as [|n IH]; intros [|y l] x H; simpl in *; try discriminate.
  - injection H as ->. now left.
  - now apply IH.
Qed.

Lemma chronological_snoc (l : list MessageInfo) (x : MessageInfo) :
  chronological l -> (forall y, In y l -> mi_time y <= mi_time x) ->
  chronological (l ++ [x]).
Proof.
  unfold chronological. induction l as [|y l IH]; intros Hs Hle; simpl.
  - constructor; constructor.
  - apply StronglySorted_inv in Hs as [Hs Hall]. constructor.
    + apply IH; [exact Hs|]. intros z Hz. apply Hle. now right.
    + apply Forall_app. split; [exact Hall|].
      constructor; [apply Hle; now left | constructor].
Qed.

Lemma chronological_nth (l : list MessageInfo) :
  chronological l ->
  forall i j a b, (i < j)%nat -> nth_error l i = Some a -> nth_error l j = Some b ->
                  mi_time a <= mi_time b.
Proof.
  unfold chronological. induction l as [|y l IH]; intros Hs i j a b Hij Ha Hb.
  - destruct i; discriminate.
  - apply StronglySorted_inv in Hs as [Hs Hall].
    destruct j as [|j]; [lia|]. simpl in Hb.
    destruct i as [|i]; simpl in Ha.
    + injection Ha as ->. rewrite Forall_forall in Hall.
      apply Hall. eapply nth_error_In, Hb.
    + apply (IH Hs i j); [lia | exact Ha | exact Hb].
Qed.

Lemma list_remove_chronological (x : MessageInfo) (l : list MessageInfo) :
  chronological l -> chronological (Py.list_remove MessageInfo_eqb x l).
Proof.
  unfold chronological. induction l as [|y l IH]; intros Hs; [exact Hs|].
  apply StronglySorted_inv in Hs as [Hs Hall]. simpl.
  destruct (MessageInfo_eqb y x); [exact Hs|].
  constructor; [now apply IH|].
  rewrite Forall_forall in *. intros z Hz. apply Hall. eapply list_remove_incl, Hz.
Qed.

(** After the removal of the entry the iterator stands on, what is left
    to visit was after that entry already. *)
Lemma after_removed (l : list MessageInfo) :
  forall pos extra x,
    nth_error l pos = Some extra ->
    In x (skipn (S pos) (Py.list_remove MessageInfo_eqb extra l)) ->
    In x (skipn (S pos) l)
    /\ (chronological l -> mi_time extra <= mi_time x).
Proof.
  induction l as [|y l IH]; intros pos extra x Hnth Hin.
  - destruct pos; discriminate.
  - cbn [Py.list_remove] in Hin.
    destruct (MessageInfo_eqb y extra) eqn:Hy.
    + apply MessageInfo_eqb_eq in Hy. subst y. split.
      * cbn [skipn]. now apply in_skipn_S.
      * intros Hs. apply StronglySorted_inv in Hs as [_ Hall].
        rewrite Forall_forall in Hall. apply Hall. eapply in_skipn, Hin.
    + destruct pos as [|pos]; simpl in Hnth.
      { injection Hnth as ->.
        rewrite (proj2 (MessageInfo_eqb_eq extra extra) eq_refl) in Hy. discriminate. }
      cbn [skipn] in Hin |- *.
      destruct (IH pos extra x Hnth Hin) as [Hskip Htime].
      split; [exact Hskip|].
      intros Hs. apply StronglySorted_inv in Hs as [Hs _]. now apply Htime.
Qed.

Lemma scan_pool_chronological (fuel : nat) :
  forall pos new_context index msg existing complete existing' complete',
    scan_pool fuel pos new_context index msg existing complete = (existing', complete') ->
    chronological existing -> chronological complete ->
    (forall y x, In y complete -> In x (skipn pos existing) ->
                 check new_context index msg x = true -> mi_time y <= mi_time x) ->
    chronological existing' /\ chronological complete'.
Proof.
  induction fuel as [|fuel IH];
    intros pos nc index msg existing complete e' c' H Hse Hsc Hbound; simpl in H.
  - injection H as <- <-. now split.
  - destruct (nth_error existing pos) as [extra|] eqn:Hnth.
    2:{ injection H as <- <-. now split. }
    pose proof (nth_error_in_skipn _ _ _ Hnth) as Hhere.
    destruct (check nc index msg extra) eqn:Hcheck.
    + apply IH in H; [exact H | now apply list_remove_chronological | |].
      * apply chronological_snoc; [exact Hsc|].
        intros y Hy. now apply (Hbound y extra).
      * intros y x Hy Hx Hchk.
        destruct (after_removed existing pos extra x Hnth Hx) as [Hskip Htime].
        apply in_app_or in Hy as [Hy | [<- | []]].
        -- apply (Hbound y x Hy); [now apply in_skipn_S | exact Hchk].
        -- now apply Htime.
    + apply IH in H; [exact H | exact Hse | exact Hsc |].
      intros y x Hy Hx Hchk. apply (Hbound y x Hy); [now apply in_skipn_S | exact Hchk].
Qed.

Section Chronology.

Variable platform : string.
Variable db : DB.
Variable thread : Thread.
Variable new_context : list MessageInfo.
Hypothesis window_sorted : chronological new_context.

Lemma persist_entry_time (msg : MessageInfo) :
  mi_time (fst (persist_entry platform db thread msg)) = mi_time msg.
Proof.
  destruct (persist_entry_cases platform db thread msg) as [[-> _] | [-> _]]; reflexivity.
Qed.

Lemma merge_body_chronological (k : nat) (msg : MessageInfo) (st : merge_state) :
  nth_error new_context k = Some msg ->
  merge_bounded new_context k st ->
  merge_bounded new_context (S k) (merge_body platform db thread new_context st (k, msg)).
Proof.
  intros Hk (Hse & Hsc & Hprev). unfold merge_body.
  destruct (scan_pool _ 0 new_context k msg (st_existing st) (st_complete st))
    as [existing complete] eqn:Hscan.
  pose proof (scan_pool_moves _ _ _ _ _ _ _ _ _ Hscan) as [_ Hmoved].
  apply scan_pool_chronological in Hscan as [Hse' Hsc']; [|exact Hse|exact Hsc|].
  2:{ intros y x Hy _ Hchk. destruct (Hprev y Hy) as (Hpos & prev & Hnth & Hle).
      unfold check in Hchk.
      replace (0 <? k)%nat with true in Hchk by (symmetry; apply Nat.ltb_lt; lia).
      rewrite Hnth in Hchk. apply andb_true_iff in Hchk as [_ Hlt].
      apply Z.ltb_lt in Hlt. lia. }
  destruct (persist_entry platform db thread msg) as [msg' rows] eqn:Hp.
  assert (Htime : mi_time msg' = mi_time msg)
    by (rewrite <- (persist_entry_time msg), Hp; reflexivity).
  assert (Hbelow : forall y, In y complete -> mi_time y <= mi_time msg).
  { intros y Hy. destruct (Hmoved y Hy) as [Hold | [_ Hlt]]; [|lia].
    destruct (Hprev y Hold) as (Hpos & prev & Hnth & Hle).
    pose proof (chronological_nth new_context window_sorted (k - 1) k prev msg
                  ltac:(lia) Hnth Hk).
    lia. }
  repeat split; cbn [st_existing st_complete].
  - exact Hse'.
  - apply chronological_snoc; [exact Hsc'|]. intros y Hy. rewrite Htime. now apply Hbelow.
  - lia.
  - exists msg. replace (S k - 1)%nat with k by lia. split; [exact Hk|].
    apply in_app_or in H as [Hy | [<- | []]]; [now apply Hbelow | lia].
Qed.

Lemma merge_fold_chronological (l : list MessageInfo) :
  forall k st,
    (forall i, nth_error l i = nth_error new_context (k + i)) ->
    merge_bounded new_context k st ->
    chronological
      (st_complete
         (fold_left (merge_body platform db thread new_context)
                    (combine (seq k (List.length l)) l) st)).
Proof.
  induction l as [|msg l IH]; intros k st Hnth Hb.
  - simpl. apply Hb.
  - cbn [List.length seq combine fold_left]. apply IH.
    + intros i. specialize (Hnth (S i)). cbn [nth_error] in Hnth.
      rewrite Hnth. f_equal. lia.
    + apply merge_body_chronological; [|exact Hb].
      specialize (Hnth 0%nat). rewrite Nat.add_0_r in Hnth. now rewrite <- Hnth.
Qed.

Lemma merge_loop_chronological (pool : list MessageInfo) :
  chronological pool ->
  chronological (st_complete (merge_loop platform db thread new_context pool)).
Proof.
  intros Hpool. unfold merge_loop, enumerate. apply merge_fold_chronological.
  - intros i. reflexivity.
  - split; [exact Hpool|]. split; cbn [st_complete]; [constructor | intros y []].
Qed.

End Chronology.

Lemma existing_context_chronological (db : DB) (thread : Thread)
    (new_context : list MessageInfo) (first_time : Z) :
  stored_chronologically db ->
  chronological (existing_context db thread new_context first_time).
Proof.
  unfold stored_chronologically, existing_context, chronological.
  induction (messages db) as [|m l IH]; intros Hs; [constructor|].
  apply StronglySorted_inv in Hs as [Hs Hall]. specialize (IH Hs).
  cbn [filter]. destruct (_ && _); [|exact IH].
  cbn [map filter]. destruct (negb _); [|exact IH].
  constructor; [exact IH|].
  rewrite Forall_forall in *. intros x Hx.
  apply filter_In in Hx as [Hx _]. apply in_map_iff in Hx as (m' & <- & Hm').
  apply filter_In in Hm' as [Hm' _]. cbn. now apply Hall.
Qed.

(** X13.  When the entries of the window are in the order of their times
    and the messages of the store are stored in the order of theirs, the
    merged context is in the order of its times. *)
Theorem merged_context_is_chronological
    (platform : string) (db : DB) (new_context : list MessageInfo) (thread_name : string)
    (complete window' : list MessageInfo) (db' : DB) :
  chronological new_context ->
  stored_chronologically db ->
  merge_and_persist platform db new_context thread_name = Returns (complete, window') db' ->
  chronological complete.
Proof.
  intros Hwindow Hstored. unfold merge_and_persist.
  pose proof (ensure_thread_tables platform db thread_name) as (_ & Hm & _).
  destruct (ensure_thread platform db thread_name) as [thread db1]. cbn [snd] in Hm.
  destruct new_context as [|first rest]; [discriminate|].
  intros [= <- _ _].
  apply merge_loop_chronological; [exact Hwindow|].
  apply existing_context_chronological.
  unfold stored_chronologically. now rewrite Hm.
Qed.

Lemma merged_context_is_chronological_witness :
  exists complete window' db',
    merge_and_persist "matrix" Sample.db_captions Sample.window "room"
      = Returns (complete, window') db'
    /\ chronological complete.
Proof.
  do 3 eexists. split; [vm_compute; reflexivity|].
  eapply (merged_context_is_chronological "matrix" Sample.db_captions Sample.window "room").
  - unfold chronological, Sample.window. repeat constructor. cbn. lia.
  - unfold stored_chronologically. cbn. repeat constructor. cbn. lia.
  - vm_compute. reflexivity.
Defined.

(** ** Entries that are placed *)

Lemma skipn_nth_error {A} (n : nat) :
  forall (l : list A) (x : A), nth_error l n = Some x -> skipn n l = x :: skipn (S n) l.
Proof.
  induction n as [|n IH]; intros [|y l] x H; simpl in H; try discriminate.
  - now injection H as ->.
  - cbn [skipn]. now apply IH.
Qed.

Lemma filter_remove_length (f : MessageInfo -> bool) (x : MessageInfo)
    (l : list MessageInfo) :
  (List.length (filter f (Py.list_remove MessageInfo_eqb x l))
   <= List.length (filter f l))%nat.
Proof.
  induction l as [|y l IH]; simpl; [lia|].
  destruct (MessageInfo_eqb y x); simpl; destruct (f y); simpl; lia.
Qed.

Lemma scan_pool_filter_length (f : MessageInfo -> bool) (fuel : nat) :
  forall pos new_context index msg existing complete,
    (List.length
       (filter f (fst (scan_pool fuel pos new_context index msg existing complete)))
     <= List.length (filter f existing))%nat.
Proof.
  induction fuel as [|fuel IH]; intros pos nc index msg existing complete; simpl; [lia|].
  destruct (nth_error existing pos) as [extra|]; [|simpl; lia].
  destruct (check nc index msg extra); [|apply IH].
  etransitivity; [apply IH | apply filter_remove_length].
Qed.

(** When one entry at most of what is left to visit fits, the inner loop
    places it. *)
Lemma scan_pool_single (fuel : nat) :
  forall pos new_context index msg existing complete,
    (List.length existing - pos <= fuel)%nat ->
    (List.length (filter (check new_context index msg) (skipn pos existing)) <= 1)%nat ->
    snd (scan_pool fuel pos new_context index msg existing complete)
    = (complete ++ filter (check new_context index msg) (skipn pos existing))%list.
Proof.
  induction fuel as [|fuel IH]; intros pos nc index msg existing complete Hfuel Hone.
  - rewrite skipn_all2 by lia. simpl. now rewrite app_nil_r.
  - simpl. destruct (nth_error existing pos) as [extra|] eqn:Hnth.
    2:{ apply nth_error_None in Hnth. rewrite skipn_all2 by lia.
        simpl. now rewrite app_nil_r. }
    rewrite (skipn_nth_error _ _ _ Hnth) in Hone |- *. cbn [filter] in Hone |- *.
    pose proof (list_remove_length MessageInfo_eqb extra existing) as Hlen.
    destruct (check nc index msg extra) eqn:Hcheck.
    + cbn [List.length] in Hone.
      assert (Hnone : filter (check nc index msg) (skipn (S pos) existing) = [])
        by (destruct (filter _ _); [reflexivity | simpl in Hone; lia]).
      assert (Hnone' : filter (check nc index msg)
                         (skipn (S pos) (Py.list_remove MessageInfo_eqb extra existing)) = []).
      { destruct (filter _ (skipn (S pos) (Py.list_remove _ _ _))) as [|x l] eqn:Hf;
          [reflexivity|].
        assert (Hx : In x (x :: l)) by now left.
        rewrite <- Hf in Hx. apply filter_In in Hx as [Hx Hchk].
        apply (after_removed existing pos extra x Hnth) in Hx as [Hx _].
        assert (Hin : In x (filter (check nc index msg) (skipn (S pos) existing)))
          by (apply filter_In; now split).
        rewrite Hnone in Hin. destruct Hin. }
      rewrite IH; [|lia|rewrite Hnone'; simpl; lia].
      now rewrite Hnone, Hnone', <- app_assoc.
    + apply IH; [lia | exact Hone].
Qed.

Section Placement.

Variable platform : string.
Variable db : DB.
Variable thread : Thread.
Variable new_context : list MessageInfo.
Variable pool : list MessageInfo.
Hypothesis one_per_gap :
  forall j v, nth_error new_context j = Some v ->
              (List.length (filter (check new_context j v) pool) <= 1)%nat.

Lemma merge_body_kept (st : merge_state) (im : nat * MessageInfo) :
  merge_kept pool st -> merge_kept pool (merge_body platform db thread new_context st im).
Proof.
  intros [Hfilter Hkept]. destruct im as [index msg]. unfold merge_body.
  pose proof (fun f => scan_pool_filter_length f (List.length (st_existing st)) 0
                         new_context index msg (st_existing st) (st_complete st)) as Hlen.
  destruct (scan_pool _ 0 new_context index msg (st_existing st) (st_complete st))
    as [existing complete] eqn:Hscan.
  apply scan_pool_structure in Hscan as (moved & Hmoved & Hcount & _).
  destruct (persist_entry platform db thread msg) as [msg' rows].
  split; cbn [st_existing st_complete fst] in *.
  - intros f. etransitivity; [apply Hlen | apply Hfilter].
  - intros x Hx. destruct (Hkept x Hx) as [Hex | Hco].
    + apply count_info_in in Hex. specialize (Hcount x).
      destruct (Nat.eq_dec (count_info x existing) 0) as [Hz | Hnz].
      * right. subst complete. apply in_or_app. left. apply in_or_app. right.
        apply count_info_in. lia.
      * left. apply count_info_in. lia.
    + right. subst complete. apply in_or_app. left. apply in_or_app. now left.
Qed.

Lemma merge_fold_grows (ims : list (nat * MessageInfo)) :
  forall st x, In x (st_complete st) ->
               In x (st_complete (fold_left (merge_body platform db thread new_context)
                                            ims st)).
Proof.
  intros st x Hx.
  destruct (merge_fold_structure platform db thread new_context ims st) as (placed & _ & Hc & _).
  rewrite Hc. apply in_or_app. now left.
Qed.

Lemma merge_fold_places (e : MessageInfo) (i : nat) (w : MessageInfo)
    (ims : list (nat * MessageInfo)) :
  In e pool -> nth_error new_context i = Some w -> check new_context i w e = true ->
  forall st,
    merge_kept pool st -> In (i, w) ims ->
    In e (st_complete (fold_left (merge_body platform db thread new_context) ims st)).
Proof.
  intros He Hi Hfit. induction ims as [|im ims IH]; intros st Hkept Hin; [destruct Hin|].
  cbn [fold_left]. destruct Hin as [-> | Hin].
  - apply merge_fold_grows. destruct Hkept as [Hfilter Hk].
    unfold merge_body.
    pose proof (scan_pool_single (List.length (st_existing st)) 0 new_context i w
                  (st_existing st) (st_complete st) ltac:(lia)) as Hsingle.
    cbn [skipn] in Hsingle.
    destruct (scan_pool _ 0 new_context i w (st_existing st) (st_complete st))
      as [existing complete].
    cbn [snd] in Hsingle.
    destruct (persist_entry platform db thread w) as [msg' rows].
    cbn [st_complete]. apply in_or_app. left.
    rewrite Hsingle by (etransitivity; [apply Hfilter | now apply one_per_gap]).
    destruct (Hk e He) as [Hex | Hco]; apply in_or_app; [right | now left].
    apply filter_In. now split.
  - apply IH; [now apply merge_body_kept | exact Hin].
Qed.

End Placement.

Lemma combine_seq_in {A} (l : list A) :
  forall k i w, nth_error l i = Some w ->
                In ((k + i)%nat, w) (combine (seq k (List.length l)) l).
Proof.
  induction l as [|x l IH]; intros k i w H; [destruct i; discriminate|].
  cbn [List.length seq combine]. destruct i as [|i]; simpl in H.
  - injection H as ->. left. f_equal. lia.
  - right. replace (k + S i)%nat with (S k + i)%nat by lia. now apply IH.
Qed.

(** X14.  When no two entries of the pool fit the same gap of the window,
    every entry of the pool that fits a gap is in the merged context: an
    entry fits the gap before an entry of the window when it is earlier
    than that entry and, but for the first entry of the window, later than
    the entry before. *)
Theorem lone_pool_entries_are_placed
    (platform : string) (db : DB) (first : MessageInfo) (rest : list MessageInfo)
    (thread_name : string) (e : MessageInfo) (i : nat) (w : MessageInfo) :
  let pool := existing_context (snd (ensure_thread platform db thread_name))
                (fst (ensure_thread platform db thread_name))
                (first :: rest) (mi_time first) in
  (forall j v, nth_error (first :: rest) j = Some v ->
               (List.length (filter (check (first :: rest) j v) pool) <= 1)%nat) ->
  In e pool ->
  nth_error (first :: rest) i = Some w ->
  check (first :: rest) i w e = true ->
  exists complete window' db',
    merge_and_persist platform db (first :: rest) thread_name
      = Returns (complete, window') db'
    /\ In e complete.
Proof.
  cbv zeta. unfold merge_and_persist.
  destruct (ensure_thread platform db thread_name) as [thread db1]. cbn [fst snd].
  intros Hone He Hi Hfit.
  do 3 eexists. split; [reflexivity|].
  unfold merge_loop.
  eapply merge_fold_places; try eassumption.
  - split; cbn [st_existing st_complete]; [intros f; lia | intros x Hx; now left].
  - unfold enumerate. apply (combine_seq_in (first :: rest) 0 i w Hi).
Qed.

Lemma lone_pool_entries_are_placed_witness :
  exists complete window' db',
    merge_and_persist "matrix" Sample.db_lone_caption Sample.window "room"
      = Returns (complete, window') db'
    /\ In (row_as_msg_info Sample.cat) complete.
Proof.
  apply (lone_pool_entries_are_placed "matrix" Sample.db_lone_caption Sample.hello
           [Sample.bye] "room" (row_as_msg_info Sample.cat) 1 Sample.bye).
  - intros j v Hj.
    change (existing_context _ _ _ _) with [row_as_msg_info Sample.cat].
    cbn [filter]. destruct (check _ j v _); simpl; lia.
  - vm_compute. now left.
  - reflexivity.
  - vm_compute. reflexivity.
Defined.

(** ** The rows a run adds *)

Lemma added_author (platform : string) (db : DB) (thread : Thread)
    (l : list MessageInfo) (row : MessageInfo) :
  In row (added_rows platform db thread l) ->
  exists msg, In msg l /\ mi_tuple row = mi_tuple msg
              /\ get_message platform db msg = None
              /\ get_bot platform db (mi_username msg) = None.
Proof.
  unfold added_rows. intros H. apply in_flat_map in H as (msg & Hmsg & H).
  destruct (persist_entry_cases platform db thread msg) as [[Hp _] | (Hp & Hg & Hb)];
    rewrite Hp in H; simpl in H; [destruct H|].
  destruct H as [<- | []]. exists msg. repeat split; assumption.
Qed.

Lemma get_bot_tables (platform : string) (db db' : DB) (name : string) :
  bots db' = bots db -> get_bot platform db' name = get_bot platform db name.
Proof. unfold get_bot. now intros ->. Qed.

(** What a run of the merge-and-persist step leaves in the database, in
    terms of the database it was called on. *)
Lemma merge_and_persist_rows
    (platform : string) (db : DB) (new_context : list MessageInfo) (thread_name : string)
    (result : list MessageInfo * list MessageInfo) (db' : DB) :
  merge_and_persist platform db new_context thread_name = Returns result db' ->
  bots db' = bots db
  /\ completions db' = completions db
  /\ threads db' = threads (snd (ensure_thread platform db thread_name))
  /\ exists new,
       messages db' = (messages db ++ new)%list
       /\ map row_tuple new
          = map mi_tuple
              (added_rows platform (snd (ensure_thread platform db thread_name))
                 (fst (ensure_thread platform db thread_name)) new_context)
       /\ forall r, In r new ->
            Message_thread r = Thread_id (fst (ensure_thread platform db thread_name)).
Proof.
  unfold merge_and_persist.
  pose proof (ensure_thread_tables platform db thread_name) as (Hb & Hm & Hc).
  destruct (ensure_thread platform db thread_name) as [thread db1]. cbn [fst snd] in *.
  destruct new_context as [|first rest]; [discriminate|].
  intros [= _ <-]. rewrite merge_loop_added.
  destruct (commit_messages_tables
              (flat_map (fun msg => snd (persist_entry platform db1 thread msg)) (first :: rest))
              db1) as (Hb' & Ht' & Hc' & new & Hm' & Htuples & Hthreads).
  rewrite Hb', Hc', Ht', Hb, Hc. repeat split.
  exists new. rewrite <- Hm. split; [exact Hm'|]. split; [exact Htuples|].
  intros r Hr.
  assert (Hth : In (Message_thread r) (map Message_thread new)) by now apply in_map.
  rewrite Hthreads in Hth. apply in_map_iff in Hth as (row & Hrth & Hrow).
  apply added_origin in Hrow as (_ & _ & _ & Hsome & _).
  rewrite Hsome in Hrth. congruence.
Qed.

(** X15.  A run of the merge-and-persist step keeps every stored message
    and adds rows after them, under the thread of the call only.  A row it
    adds carries the tuple of an entry of the window, a tuple that no stored
    message had, and an author that is no bot of the platform.  Bots and
    completions are untouched, and the only thread that can appear is the
    thread of the call. *)
Theorem merge_and_persist_adds_only_new_human_rows
    (platform : string) (db : DB) (first : MessageInfo) (rest : list MessageInfo)
    (thread_name : string) :
  exists complete window' db' new,
    merge_and_persist platform db (first :: rest) thread_name
      = Returns (complete, window') db'
    /\ messages db' = (messages db ++ new)%list
    /\ bots db' = bots db /\ completions db' = completions db
    /\ threads db' = threads (snd (ensure_thread platform db thread_name))
    /\ forall r, In r new ->
         In (row_tuple r) (map mi_tuple (first :: rest))
         /\ ~ In (row_tuple r) (map row_tuple (messages db))
         /\ get_bot platform db (Message_username r) = None
         /\ Message_thread r = Thread_id (fst (ensure_thread platform db thread_name)).
Proof.
  destruct (merge_and_persist platform db (first :: rest) thread_name)
    as [[complete window'] db' | db'] eqn:Hrun.
  2:{ unfold merge_and_persist in Hrun.
      destruct (ensure_thread platform db thread_name); discriminate. }
  destruct (merge_and_persist_rows _ _ _ _ _ _ Hrun)
    as (Hb & Hc & Ht & new & Hm & Htuples & Hthread).
  pose proof (ensure_thread_found platform db thread_name) as (_ & Hin & Hplat).
  pose proof (ensure_thread_tables platform db thread_name) as (Hb1 & Hm1 & _).
  exists complete, window', db', new. repeat split; try assumption.
  - assert (Hrow : In (row_tuple r) (map row_tuple new)) by now apply in_map.
    rewrite Htuples in Hrow. apply in_map_iff in Hrow as (row & <- & Hrow).
    apply added_author in Hrow as (msg & Hmsg & -> & _). now apply in_map.
  - intros Hstored.
    assert (Hrow : In (row_tuple r) (map row_tuple new)) by now apply in_map.
    rewrite Htuples in Hrow. apply in_map_iff in Hrow as (row & Hrt & Hrow).
    apply added_author in Hrow as (msg & _ & Htuple & Hnone & _).
    apply in_map_iff in Hstored as (r' & Hr't & Hr'in).
    rewrite <- Hm1 in Hr'in.
    apply (get_message_none platform _ msg _ Hnone Hin Hplat r' Hr'in). congruence.
  - assert (Hrow : In (row_tuple r) (map row_tuple new)) by now apply in_map.
    rewrite Htuples in Hrow. apply in_map_iff in Hrow as (row & Hrt & Hrow).
    apply added_author in Hrow as (msg & _ & Htuple & _ & Hbot).
    rewrite (get_bot_tables platform db _ _ Hb1) in Hbot.
    assert (Hu : Message_username r = mi_username msg)
      by (unfold row_tuple, mi_tuple in *; congruence).
    now rewrite Hu.
  - now apply Hthread.
Qed.

(** ** Answers *)


(** The last entry of the window as the run leaves it. *)
Lemma merge_and_persist_last
    (platform : string) (db : DB) (front : list MessageInfo) (last_msg : MessageInfo)
    (thread_name : string) (complete window' : list MessageInfo) (db' : DB) :
  merge_and_persist platform db (front ++ [last_msg]) thread_name
    = Returns (complete, window') db' ->
  exists reply_to others,
    rev window' = reply_to :: others /\ mi_tuple reply_to = mi_tuple last_msg.
Proof.
  unfold merge_and_persist.
  destruct (ensure_thread platform db thread_name) as [thread db1].
  destruct (front ++ [last_msg])%list as [|first rest] eqn:Hnc; [discriminate|].
  intros [= _ <- _]. rewrite <- Hnc. unfold merge_loop.
  match goal with |- context [fold_left _ _ ?st0] =>
    destruct (merge_fold_added platform db1 thread (front ++ [last_msg])
                (enumerate (front ++ [last_msg])) st0) as [_ Hw]
  end.
  rewrite Hw. cbn [st_window app].
  rewrite <- (map_map snd (fun m => fst (persist_entry platform db1 thread m))).
  rewrite enumerate_map_snd, map_app, rev_app_distr. cbn [map rev app].
  do 2 eexists. split; [reflexivity|].
  destruct (persist_entry_cases platform db1 thread last_msg) as [[-> _] | [-> _]];
    reflexivity.
Qed.

Section Answers.

Variable username : string.
Variable platform : string.
Variable personality : string.
Variable bot_pk : Z.
Variable OPENAI_KEY : string.
Variable chat_completion : list gpt_msg -> option string.
Variable now_year : Z.

Lemma format_context_returns (context : list MessageInfo)
    (personality_override : option string) :
  exists gpt_context,
    format_context username personality now_year context personality_override
    = Some gpt_context.
Proof.
  destruct (trim_total (map (format_entry username) context))
    as (dropped & kept & Htrim & _).
  unfold format_context. rewrite format_entries_total, Htrim. eauto.
Qed.

(** X16.  How [gpt_answer] fails.  Without a key it raises and the database
    is untouched.  On an empty window it raises too, after the thread of the
    call has been created.  When the language model fails it returns the
    empty string: the messages of the window are stored as by the merge and
    no completion is recorded. *)
Theorem gpt_answer_failures (db : DB) (thread_name : string)
    (personality_override : option string) :
  (OPENAI_KEY = EmptyString ->
   forall new_context,
     gpt_answer username platform personality bot_pk OPENAI_KEY chat_completion
       now_year db new_context thread_name personality_override = Raises db)
  /\ (OPENAI_KEY <> EmptyString ->
      gpt_answer username platform personality bot_pk OPENAI_KEY chat_completion
       now_year db [] thread_name personality_override
      = Raises (snd (ensure_thread platform db thread_name)))
  /\ (OPENAI_KEY <> EmptyString ->
      (forall gpt_context, chat_completion gpt_context = None) ->
      forall first rest,
        gpt_answer username platform personality bot_pk OPENAI_KEY chat_completion
       now_year db (first :: rest) thread_name personality_override
        = Returns EmptyString
            (outcome_db (merge_and_persist platform db (first :: rest) thread_name))
        /\ completions
             (outcome_db (merge_and_persist platform db (first :: rest) thread_name))
           = completions db).
Proof.
  split; [|split].
  - intros -> new_context. reflexivity.
  - intros Hkey. apply String.eqb_neq in Hkey. unfold gpt_answer. rewrite Hkey.
    unfold merge_and_persist.
    destruct (ensure_thread platform db thread_name); reflexivity.
  - intros Hkey Hfail first rest. apply String.eqb_neq in Hkey.
    unfold gpt_answer. rewrite Hkey.
    destruct (merge_and_persist platform db (first :: rest) thread_name)
      as [[complete window'] db1 | db1] eqn:Hrun.
    2:{ unfold merge_and_persist in Hrun.
        destruct (ensure_thread platform db thread_name); discriminate. }
    cbn [outcome_db].
    destruct (format_context_returns complete personality_override) as (gpt_context & ->).
    rewrite Hfail. split; [reflexivity|].
    eapply merge_and_persist_completions, Hrun.
Qed.


(** X18.  When the author of the last entry of the window is a bot of the
    platform and no stored message carries the tuple of that entry,
    [gpt_answer] raises once the language model has answered: the entry is
    not stored as a message, so there is no message for the completion to
    reply to.  The messages of the window are stored as by the merge
    nonetheless and no completion is recorded. *)
Theorem gpt_answer_raises_on_bot_reply
    (db : DB) (front : list MessageInfo) (last_msg : MessageInfo) (thread_name : string)
    (personality_override : option string) :
  OPENAI_KEY <> EmptyString ->
  (forall gpt_context, chat_completion gpt_context <> None) ->
  get_bot platform db (mi_username last_msg) <> None ->
  (forall r, In r (messages db) -> row_tuple r <> mi_tuple last_msg) ->
  gpt_answer username platform personality bot_pk OPENAI_KEY chat_completion
    now_year db (front ++ [last_msg]) thread_name personality_override
  = Raises (outcome_db (merge_and_persist platform db (front ++ [last_msg]) thread_name))
  /\ completions
       (outcome_db (merge_and_persist platform db (front ++ [last_msg]) thread_name))
     = completions db.
Proof.
  intros Hkey Hanswers Hbot Hfresh. apply String.eqb_neq in Hkey.
  unfold gpt_answer. rewrite Hkey.
  destruct (merge_and_persist platform db (front ++ [last_msg]) thread_name)
    as [[complete window'] db1 | db1] eqn:Hrun.
  2:{ unfold merge_and_persist in Hrun.
      destruct (ensure_thread platform db thread_name).
      destruct front; discriminate. }
  cbn [outcome_db].
  split; [|eapply merge_and_persist_completions, Hrun].
  destruct (format_context_returns complete personality_override) as (gpt_context & ->).
  destruct (chat_completion gpt_context) as [response|] eqn:Hchat;
    [|now destruct (Hanswers gpt_context)].
  destruct (merge_and_persist_last _ _ _ _ _ _ _ _ Hrun) as (reply_to & others & -> & Htuple).
  unfold add_completion.
  destruct (get_message platform db1 reply_to) as [m|] eqn:Hm; [|reflexivity].
  exfalso.
  apply get_message_sound in Hm as (Hin & Hrt & _).
  destruct (merge_and_persist_rows _ _ _ _ _ _ Hrun) as (_ & _ & _ & new & Hmsgs & Htuples & _).
  pose proof (ensure_thread_tables platform db thread_name) as (Hb1 & _ & _).
  rewrite Hmsgs in Hin. apply in_app_or in Hin as [Hin | Hin].
  - apply (Hfresh m Hin). congruence.
  - assert (Hrow : In (row_tuple m) (map row_tuple new)) by now apply in_map.
    rewrite Htuples in Hrow. apply in_map_iff in Hrow as (row & Hrow_t & Hrow).
    apply added_author in Hrow as (msg & _ & Hmsg_t & _ & Hnobot).
    rewrite (get_bot_tables platform db _ _ Hb1) in Hnobot.
    apply Hbot.
    assert (Hu : mi_username last_msg = mi_username msg)
      by (unfold row_tuple, mi_tuple in *; congruence).
    now rewrite Hu.
Qed.

End Answers.

Lemma gpt_answer_failures_witness :
  gpt_answer "edubot" "matrix" "kind" 1 "key" (fun _ => None) 2023
    Sample.db_empty_room [] "lobby" None
  = Raises (snd (ensure_thread "matrix" Sample.db_empty_room "lobby")).
Proof.
  apply (proj1 (proj2 (gpt_answer_failures "edubot" "matrix" "kind" 1 "key"
                         (fun _ => None) 2023 Sample.db_empty_room "lobby" None))).
  discriminate.
Defined.


Lemma gpt_answer_raises_on_bot_reply_witness :
  exists db',
    gpt_answer "edubot" "matrix" "kind" 1 "key" (fun _ => Some "hello again") 2023
      Sample.db_empty_room ([Sample.hello] ++ [Sample.info "edubot" "hi" 5000000])
      "room" None
    = Raises db'
    /\ completions db' = [].
Proof.
  eexists.
  apply (gpt_answer_raises_on_bot_reply "edubot" "matrix" "kind" 1 "key"
           (fun _ => Some "hello again") 2023 Sample.db_empty_room
           [Sample.hello] (Sample.info "edubot" "hi" 5000000) "room" None).
  - discriminate.
  - discriminate.
  - vm_compute. discriminate.
  - intros r [].
Defined.

(** ** Correlation of feedback *)

Section Correlation.

Variable bot_pk : Z.
Variable db : DB.
Variable completion : CompletionInfo.
Variable thread_name : string.

Lemma matching_completions_correlates (row : Completion) :
  In row (matching_completions bot_pk db completion thread_name)
  <-> correlates bot_pk db completion thread_name row.
Proof.
  unfold matching_completions, correlates. split.
  - intros H.
    apply in_flat_map in H as (c & Hc & H).
    apply in_flat_map in H as (b & Hb & H).
    apply in_flat_map in H as (m & Hm & H).
    apply in_flat_map in H as (t & Ht & H).
    apply filter_In in Hb as [Hb Hbj]. apply filter_In in Hm as [Hm Hmj].
    apply filter_In in Ht as [Ht Htj].
    apply Z.eqb_eq in Hbj. apply Z.eqb_eq in Hmj. apply Z.eqb_eq in Htj.
    match type of H with In _ (if ?cond then _ else _) => destruct cond eqn:Hcond end;
      [|destruct H].
    destruct H as [<- | []].
    apply andb_true_iff in Hcond as [Hcond Hbefore].
    apply andb_true_iff in Hcond as [Hcond Hafter].
    apply andb_true_iff in Hcond as [Hcond Hpk].
    apply andb_true_iff in Hcond as [Htext Hname].
    apply String.eqb_eq in Htext. apply String.eqb_eq in Hname.
    apply Z.eqb_eq in Hpk. apply Z.ltb_lt in Hafter. apply Z.ltb_lt in Hbefore.
    split; [exact Hc|]. split; [exact Htext|]. split; [congruence|].
    exists b, m, t. repeat split; try assumption; congruence.
  - intros (Hc & Htext & Hpk & b & m & t & Hb & Hm & Ht & Hbj & Hmj & Htj & Hname
            & Hafter & Hbefore).
    apply in_flat_map. exists row. split; [exact Hc|].
    apply in_flat_map. exists b.
    split; [apply filter_In; split; [exact Hb | apply Z.eqb_eq; congruence]|].
    apply in_flat_map. exists m.
    split; [apply filter_In; split; [exact Hm | apply Z.eqb_eq; congruence]|].
    apply in_flat_map. exists t.
    split; [apply filter_In; split; [exact Ht | apply Z.eqb_eq; congruence]|].
    replace (_ && _ && _ && _ && _) with true; [now left|].
    symmetry. rewrite !andb_true_iff, !String.eqb_eq, Z.eqb_eq, !Z.ltb_lt.
    repeat split; try assumption; congruence.
Qed.

Lemma first_by_desc_id_largest (rows : list Completion) :
  forall best row,
    fold_left
      (fun best c =>
         match best with
         | None => Some c
         | Some b => if Completion_id b <? Completion_id c then Some c else Some b
         end)
      rows best = Some row ->
    (forall b, best = Some b -> Completion_id b <= Completion_id row)
    /\ (forall c, In c rows -> Completion_id c <= Completion_id row).
Proof.
  induction rows as [|c rows IH]; intros best row H; simpl in H.
  - split; [intros b Hb; rewrite Hb in H; injection H as ->; lia | intros c []].
  - apply IH in H as [Hbest Hrows]. split.
    + intros b ->. destruct (Completion_id b <? Completion_id c) eqn:Hlt.
      * apply Z.ltb_lt in Hlt. specialize (Hbest c eq_refl). lia.
      * now apply Hbest.
    + intros c' [<- | Hin]; [|now apply Hrows].
      destruct best as [b|].
      * destruct (Completion_id b <? Completion_id c) eqn:Hlt.
        -- now apply Hbest.
        -- apply Z.ltb_ge in Hlt. specialize (Hbest b eq_refl). lia.
      * now apply Hbest.
Qed.

Lemma first_by_desc_id_none (rows : list Completion) :
  first_by_desc_id rows = None -> rows = [].
Proof.
  unfold first_by_desc_id. destruct rows as [|c rows]; [reflexivity|].
  simpl. intros H. exfalso.
  assert (Hsome : forall l b, fold_left
                    (fun best c0 =>
                       match best with
                       | None => Some c0
                       | Some b0 => if Completion_id b0 <? Completion_id c0
                                    then Some c0 else Some b0
                       end) l (Some b) <> None).
  { induction l as [|x l IH]; intros b; simpl; [discriminate|].
    destruct (Completion_id b <? Completion_id x); apply IH. }
  now apply (Hsome rows c).
Qed.

End Correlation.

(** X19.  Which completion a feedback event changes.  Either no completion
    correlates with the event and the database is left as it is, or the
    score of a completion that correlates is changed, and it is the one
    with the largest id among those that do.  A completion correlates when
    it is of this bot, has the text of the event, and replies to a message
    of a thread of the given name sent before the event and less than 90
    seconds before it. *)
Theorem change_completion_score_correlation
    (bot_pk : Z) (db : DB) (offset : Z) (completion : CompletionInfo)
    (thread_name : string) :
  ((forall row, ~ correlates bot_pk db completion thread_name row)
   /\ change_completion_score bot_pk db offset completion thread_name = db)
  \/ (exists row,
        correlates bot_pk db completion thread_name row
        /\ (forall other, correlates bot_pk db completion thread_name other ->
                          Completion_id other <= Completion_id row)
        /\ change_completion_score bot_pk db offset completion thread_name
           = update_score db row (Completion_score row + offset)).
Proof.
  unfold change_completion_score.
  destruct (first_by_desc_id (matching_completions bot_pk db completion thread_name))
    as [row|] eqn:Hsel.
  - right. exists row. split; [|split; [|reflexivity]].
    + apply matching_completions_correlates. now apply first_by_desc_id_in.
    + intros other Hother. apply matching_completions_correlates in Hother.
      unfold first_by_desc_id in Hsel.
      apply first_by_desc_id_largest in Hsel as [_ Hrows]. now apply Hrows.
  - left. split; [|reflexivity].
    intros row Hrow. apply matching_completions_correlates in Hrow.
    apply first_by_desc_id_none in Hsel. rewrite Hsel in Hrow. destruct Hrow.
Qed.

(** X20.  Feedback that cannot concern a completion is ignored: the
    database is left as it is when no completion has the text of the event,
    when every stored message was sent more than 90 seconds before the
    event, and when no stored message was sent before the event. *)
Theorem change_completion_score_ignores
    (bot_pk : Z) (db : DB) (offset : Z) (completion : CompletionInfo)
    (thread_name : string) :
  ((forall c, In c (completions db) -> Completion_message c <> ci_message completion)
   \/ (forall m, In m (messages db) ->
                 Message_time m + timedelta 1 30 < ci_time completion)
   \/ (forall m, In m (messages db) -> ci_time completion <= Message_time m)) ->
  change_completion_score bot_pk db offset completion thread_name = db.
Proof.
  intros Hcannot. unfold change_completion_score.
  destruct (first_by_desc_id (matching_completions bot_pk db completion thread_name))
    as [row|] eqn:Hsel; [|reflexivity].
  exfalso. apply first_by_desc_id_in, matching_completions_correlates in Hsel.
  destruct Hsel as (Hc & Htext & _ & b & m & t & _ & Hm & _ & _ & _ & _ & _ & Hafter & Hbefore).
  destruct Hcannot as [Hno | [Hlate | Hearly]].
  - now apply (Hno row Hc).
  - specialize (Hlate m Hm). lia.
  - specialize (Hearly m Hm). lia.
Qed.

Lemma change_completion_score_ignores_witness :
  change_completion_score 1 Sample.db_answered 1
    (Sample.feedback_at (Sample.t0 + timedelta 5 0)) "room"
  = Sample.db_answered.
Proof.
  apply change_completion_score_ignores. right. left.
  intros m [<- | []]. vm_compute. reflexivity.
Defined.

Lemma map_flat_map {A B C} (g : B -> C) (h : A -> list B) (l : list A) :
  map g (flat_map h l) = flat_map (fun x => map g (h x)) l.
Proof.
  induction l as [|x l IH]; simpl; [reflexivity|]. now rewrite map_app, IH.
Qed.

Section Offsets.

Variable bot_pk : Z.
Variable completion : CompletionInfo.
Variable thread_name : string.
Variable row : Completion.
Variable score : Z.

Lemma matching_completions_update (db : DB) :
  matching_completions bot_pk (update_score db row score) completion thread_name
  = map (fun c => if Completion_id c =? Completion_id row then with_score score c else c)
        (matching_completions bot_pk db completion thread_name).
Proof.
  unfold matching_completions, update_score. cbn [bots threads messages completions].
  induction (completions db) as [|c l IH]; [reflexivity|].
  cbn [map flat_map]. rewrite map_app, <- IH. f_equal.
  rewrite map_flat_map.
  destruct (Completion_id c =? Completion_id row) eqn:Hid; cbn [Completion_bot
    Completion_reply_to Completion_message];
    apply flat_map_ext; intros b; rewrite map_flat_map;
    apply flat_map_ext; intros m; rewrite map_flat_map;
    apply flat_map_ext; intros t;
    destruct (_ && _); cbn [map]; rewrite ?Hid; reflexivity.
Qed.

Lemma first_by_desc_id_update (rows : list Completion) :
  first_by_desc_id
    (map (fun c => if Completion_id c =? Completion_id row then with_score score c else c)
         rows)
  = option_map
      (fun c => if Completion_id c =? Completion_id row then with_score score c else c)
      (first_by_desc_id rows).
Proof.
  unfold first_by_desc_id.
  change (@None Completion)
    with (option_map
            (fun c => if Completion_id c =? Completion_id row then with_score score c else c)
            None) at 1.
  generalize (@None Completion).
  induction rows as [|c rows IH]; intros best; [reflexivity|].
  cbn [map fold_left]. rewrite <- IH. f_equal.
  destruct best as [b|]; cbn [option_map]; [|reflexivity].
  assert (Hid : forall x,
             Completion_id (if Completion_id x =? Completion_id row
                            then with_score score x else x) = Completion_id x)
    by (intros x; destruct (Completion_id x =? Completion_id row); reflexivity).
  rewrite !Hid. destruct (Completion_id b <? Completion_id c); reflexivity.
Qed.

End Offsets.

(** X21.  Feedback adds up: two feedback events on the same completion, one
    of offset [a] and then one of offset [b], leave the database as a single
    event of offset [a + b] does. *)
Theorem change_completion_score_adds_up
    (bot_pk : Z) (db : DB) (a b : Z) (completion : CompletionInfo) (thread_name : string) :
  change_completion_score bot_pk
    (change_completion_score bot_pk db a completion thread_name) b completion thread_name
  = change_completion_score bot_pk db (a + b) completion thread_name.
Proof.
  unfold change_completion_score at 2 3.
  destruct (first_by_desc_id (matching_completions bot_pk db completion thread_name))
    as [row|] eqn:Hsel.
  - unfold change_completion_score.
    rewrite matching_completions_update, first_by_desc_id_update, Hsel.
    cbn [option_map]. rewrite Z.eqb_refl.
    unfold update_score, with_score.
    cbn [bots threads messages completions Completion_id Completion_score].
    f_equal. rewrite map_map. apply map_ext. intros c.
    destruct (Completion_id c =? Completion_id row) eqn:Hid;
      cbn [Completion_id Completion_bot Completion_message Completion_reply_to];
      rewrite Hid; [|reflexivity].
    f_equal. lia.
  - unfold change_completion_score. now rewrite Hsel.
Qed.

(** ** Summaries and what follows them *)

Lemma merge_and_persist_fresh
    (platform : string) (db : DB) (new_context : list MessageInfo) (thread_name : string)
    (result : list MessageInfo * list MessageInfo) (db' : DB) :
  merge_and_persist platform db new_context thread_name = Returns result db' ->
  exists new,
    messages db' = (messages db ++ new)%list
    /\ forall r, In r new -> ~ In (row_tuple r) (map row_tuple (messages db)).
Proof.
  intros Hrun.
  destruct (merge_and_persist_rows _ _ _ _ _ _ Hrun) as (_ & _ & _ & new & Hm & Htuples & _).
  pose proof (ensure_thread_found platform db thread_name) as (_ & Hin & Hplat).
  pose proof (ensure_thread_tables platform db thread_name) as (_ & Hm1 & _).
  exists new. split; [exact Hm|]. intros r Hr Hstored.
  assert (Hrow : In (row_tuple r) (map row_tuple new)) by now apply in_map.
  rewrite Htuples in Hrow. apply in_map_iff in Hrow as (row & Hrt & Hrow).
  apply added_author in Hrow as (msg & _ & Htuple & Hnone & _).
  apply in_map_iff in Hstored as (r' & Hr't & Hr'in).
  rewrite <- Hm1 in Hr'in.
  apply (get_message_none platform _ msg _ Hnone Hin Hplat r' Hr'in). congruence.
Qed.

Section Summaries.

Variable platform : string.
Variable bot_pk : Z.
Variable chat_completion : list gpt_msg -> option string.
Variable fetch_url : string -> option string.
Variable extract : string -> option string.

(** The session block of [summarise_url], lines 512-528: it does not
    raise, and what it leaves. *)
Lemma summarise_url_block (db : DB) (msg : MessageInfo) (thread_name text : string) :
  let thread := fst (ensure_thread platform db thread_name) in
  let db1 := snd (ensure_thread platform db thread_name) in
  let row := {| mi_username := mi_username msg; mi_message := mi_message msg;
                mi_time := mi_time msg; mi_thread := Some (Thread_id thread) |} in
  exists db' m c,
    add_completion platform bot_pk
      (snd (match get_message platform db1 msg with
            | None => (row, commit_messages db1 [row])
            | Some _ => (msg, db1)
            end))
      text
      (fst (match get_message platform db1 msg with
            | None => (row, commit_messages db1 [row])
            | Some _ => (msg, db1)
            end))
    = Some db'
    /\ bots db' = bots db
    /\ In m (messages db') /\ row_tuple m = mi_tuple msg
    /\ (messages db' = messages db \/ messages db' = (messages db ++ [m])%list)
    /\ completions db' = (completions db ++ [c])%list
    /\ Completion_bot c = bot_pk /\ Completion_message c = text
    /\ Completion_score c = 0 /\ Completion_reply_to c = Message_id m.
Proof.
  cbv zeta.
  pose proof (ensure_thread_found platform db thread_name) as (_ & Hin & Hplat).
  pose proof (ensure_thread_tables platform db thread_name) as (Hb & Hm & Hc).
  set (thread := fst (ensure_thread platform db thread_name)) in *.
  set (db1 := snd (ensure_thread platform db thread_name)) in *.
  destruct (get_message platform db1 msg) as [m0|] eqn:Hget; cbn [fst snd].
  - unfold add_completion. rewrite Hget.
    apply get_message_sound in Hget as (Hm0 & Htuple & _).
    do 3 eexists. split; [reflexivity|]. cbn [bots messages completions].
    rewrite Hb, Hm, Hc. rewrite Hm in Hm0.
    repeat split; try assumption. now left.
  - set (row := {| mi_username := mi_username msg; mi_message := mi_message msg;
                   mi_time := mi_time msg; mi_thread := Some (Thread_id thread) |}).
    set (db2 := commit_messages db1 [row]).
    destruct (commit_messages_tables [row] db1) as (Hb2 & Ht2 & Hc2 & new & Hm2 & Htu & _).
    fold db2 in Hb2, Ht2, Hc2, Hm2.
    destruct new as [|mnew [|? ?]]; try discriminate.
    apply (f_equal (hd (mi_tuple row))) in Htu. cbn [hd map] in Htu.
    assert (Hfound : get_message platform db2 row <> None).
    { apply (get_message_found platform db2 row mnew thread).
      - rewrite Hm2. apply in_or_app. right. now left.
      - exact Htu.
      - now rewrite Ht2.
      - exact Hplat. }
    unfold add_completion.
    destruct (get_message platform db2 row) as [m|] eqn:Hget2; [|congruence].
    apply get_message_sound in Hget2 as (Hmin & Hmt & _).
    assert (Hm_new : m = mnew).
    { rewrite Hm2 in Hmin. apply in_app_or in Hmin as [Hold | [<- | []]]; [|reflexivity].
      exfalso.
      apply (get_message_none platform db1 msg thread Hget Hin Hplat m Hold).
      rewrite Hmt. reflexivity. }
    subst m.
    do 3 eexists. split; [reflexivity|]. cbn [bots messages completions].
    rewrite Hb2, Hc2, Hm2, Hb, Hm, Hc.
    repeat split.
    + apply in_or_app. right. now left.
    + rewrite Hmt. reflexivity.
    + now right.
Qed.


(** X23.  A message that [summarise_url] has stored is not stored again by
    a later answer: after a call that returned a summary, a run of the
    merge-and-persist step, on any window and thread, adds no row with the
    tuple of the triggering message. *)
Theorem summarised_message_is_not_stored_again
    (db db1 : DB) (url : string) (msg : MessageInfo) (thread_name summary : string)
    (first : MessageInfo) (rest : list MessageInfo) (thread_name2 : string) :
  summarise_url platform bot_pk chat_completion fetch_url extract db url msg thread_name
    = Returns (Some summary) db1 ->
  exists complete window' db2 new,
    merge_and_persist platform db1 (first :: rest) thread_name2
      = Returns (complete, window') db2
    /\ messages db2 = (messages db1 ++ new)%list
    /\ forall r, In r new -> row_tuple r <> mi_tuple msg.
Proof.
  intros Hsum.
  assert (Hstored : exists m, In m (messages db1) /\ row_tuple m = mi_tuple msg).
  { unfold summarise_url in Hsum.
    destruct (fetch_url url) as [resp|]; [|discriminate].
    destruct (String.eqb resp EmptyString); [discriminate|].
    destruct (extract resp) as [text|]; [|discriminate].
    destruct (chat_completion _) as [completion_text|]; [|discriminate].
    destruct (Py.contains "NO CONTENT" (Py.upper completion_text)); [discriminate|].
    destruct (summarise_url_block db msg thread_name (Py.strip completion_text))
      as (db' & m & c & Hadd & _ & Hin & Htuple & _).
    destruct (ensure_thread platform db thread_name) as [thread db0]. cbn [fst snd] in Hadd.
    destruct (get_message platform db0 msg); cbn [fst snd] in Hadd; rewrite Hadd in Hsum;
      injection Hsum as _ <-; now exists m. }
  destruct Hstored as (m & Hm & Htuple).
  destruct (merge_and_persist platform db1 (first :: rest) thread_name2)
    as [[complete window'] db2 | db2] eqn:Hrun.
  2:{ unfold merge_and_persist in Hrun.
      destruct (ensure_thread platform db1 thread_name2); discriminate. }
  destruct (merge_and_persist_fresh _ _ _ _ _ _ Hrun) as (new & Hmsgs & Hfresh).
  exists complete, window', db2, new. split; [reflexivity|]. split; [exact Hmsgs|].
  intros r Hr Heq. apply (Hfresh r Hr). rewrite Heq, <- Htuple. now apply in_map.
Qed.

End Summaries.

Lemma summarised_message_is_not_stored_again_witness :
  exists db1 complete window' db2 new,
    summarise_url "matrix" 1 (fun _ => Some "A summary.") (fun _ => Some "<html>")
      (fun _ => Some "page") Sample.db_empty_room "https://example.org" Sample.hello "room"
      = Returns (Some "A summary.") db1
    /\ merge_and_persist "matrix" db1 (Sample.hello :: [Sample.bye]) "room"
       = Returns (complete, window') db2
    /\ messages db2 = (messages db1 ++ new)%list
    /\ forall r, In r new -> row_tuple r <> mi_tuple Sample.hello.
Proof.
  eexists.
  destruct (summarised_message_is_not_stored_again
              "matrix" 1 (fun _ => Some "A summary.") (fun _ => Some "<html>")
              (fun _ => Some "page") Sample.db_empty_room _ "https://example.org"
              Sample.hello "room" "A summary." Sample.hello [Sample.bye] "room" eq_refl)
    as (complete & window' & db2 & new & Hrun & Hm & Hfresh).
  exists complete, window', db2, new. repeat split; assumption.
Defined.

(** ** Captions in later answers *)

(** X24.  A caption that [save_image_to_context] has stored is part of the
    pool of a later answer in that thread: when the window of the answer
    starts before the time of the image and does not hold the caption
    itself, the pool that the merge draws from holds it. *)
Theorem saved_caption_is_in_later_pool
    (platform REPLICATE_KEY : string) (Image : Type) (png_size : Image -> Z)
    (replicate_run : Image -> option string)
    (db db' : DB) (image : ImageInfo Image) (thread_name output : string)
    (first : MessageInfo) (rest : list MessageInfo) :
  let caption := {| mi_username := ii_username image;
                    mi_message := "*An image of " ++ output;
                    mi_time := ii_time image;
                    mi_thread := None |} in
  save_image_to_context platform REPLICATE_KEY Image png_size replicate_run
    db image thread_name = Returns (Some output) db' ->
  mi_time first < ii_time image ->
  ~ In caption (first :: rest) ->
  In caption
     (existing_context (snd (ensure_thread platform db' thread_name))
        (fst (ensure_thread platform db' thread_name)) (first :: rest) (mi_time first)).
Proof.
  cbv zeta. unfold save_image_to_context.
  destruct (String.eqb REPLICATE_KEY EmptyString); [discriminate|].
  destruct (too_large Image png_size image); [discriminate|].
  destruct (replicate_run (ii_image image)) as [out|]; [|discriminate].
  destruct (String.eqb out EmptyString); [discriminate|].
  pose proof (ensure_thread_again platform db) as Hagain.
  destruct (ensure_thread platform db thread_name) as [thread db1] eqn:He.
  intros [= -> <-] Hlater Hfresh.
  match goal with
  | |- context [ensure_thread platform ?d thread_name] =>
      rewrite (Hagain d thread_name) by (rewrite He; reflexivity)
  end.
  rewrite He. cbn [fst snd].
  unfold existing_context. apply filter_In. split.
  - apply in_map_iff. eexists. split; [|apply filter_In; split].
    2:{ cbn [messages]. apply in_or_app. right. now left. }
    + reflexivity.
    + cbn. rewrite Z.eqb_refl. apply Z.ltb_lt. exact Hlater.
  - apply negb_true_iff. apply not_true_iff_false. intros Hex.
    apply existsb_exists in Hex as (w & Hw & Heq).
    apply MessageInfo_eqb_eq in Heq. subst w. now apply Hfresh.
Qed.

Lemma saved_caption_is_in_later_pool_witness :
  exists db',
    save_image_to_context "matrix" "key" unit (fun _ => 1000) (fun _ => Some "a cat")
      Sample.db_empty_room
      {| ii_image := tt; ii_username := "alice"; ii_time := 3000000 |} "room"
    = Returns (Some "a cat") db'
    /\ In (Sample.info "alice" "*An image of a cat" 3000000)
          (existing_context (snd (ensure_thread "matrix" db' "room"))
             (fst (ensure_thread "matrix" db' "room")) Sample.window
             (mi_time Sample.hello)).
Proof.
  eexists. split; [vm_compute; reflexivity|].
  apply (saved_caption_is_in_later_pool "matrix" "key" unit (fun _ => 1000)
           (fun _ => Some "a cat") Sample.db_empty_room _
           {| ii_image := tt; ii_username := "alice"; ii_time := 3000000 |}
           "room" "a cat" Sample.hello [Sample.bye]).
  - vm_compute. reflexivity.
  - vm_compute. reflexivity.
  - intros [H | [H | []]]; discriminate.
Defined.

(** ** Generated images *)

Section Images.

Variable Image : Type.
Variable DREAMSTUDIO_KEY : string.
Variable Client : Type.
Variable StabilityInference : string -> bool -> Client.
Variable logger_level : Z.
Variable generate : Client -> string -> list artifact_step.
Variable image_open : string -> option Image.

Lemma first_image_skips (skipped : list artifact_step) :
  Forall (fun a => exists binary, a = Artifact false binary) skipped ->
  forall rest,
    first_image Image image_open (skipped ++ rest) = first_image Image image_open rest.
Proof.
  induction 1 as [|a skipped (binary & ->) _ IH]; intros rest; [reflexivity|].
  cbn [app first_image]. apply IH.
Qed.

(** X25.  [generate_image] raises without a key.  With a key it builds a
    client only when the bot holds none and keeps the client it used; the
    image it returns is the first artifact of the type image in the stream,
    as long as only artifacts of other types come before it: what comes
    after it is not looked at, and the result is [None] when that artifact
    cannot be opened, when the stream fails before it or ends without
    one. *)
Theorem generate_image_returns_first_image
    (stability_client : option Client) (prompt : string) :
  (DREAMSTUDIO_KEY = EmptyString ->
   generate_image Image DREAMSTUDIO_KEY Client StabilityInference logger_level
     generate image_open stability_client prompt = None)
  /\ (DREAMSTUDIO_KEY <> EmptyString ->
      exists result client,
        generate_image Image DREAMSTUDIO_KEY Client StabilityInference logger_level
          generate image_open stability_client prompt = Some (result, client)
        /\ (forall held, stability_client = Some held -> client = held)
        /\ generate_image Image DREAMSTUDIO_KEY Client StabilityInference logger_level
             generate image_open (Some client) prompt = Some (result, client)
        /\ (forall skipped binary rest,
              Forall (fun a => exists b, a = Artifact false b) skipped ->
              generate client prompt = (skipped ++ Artifact true binary :: rest)%list ->
              result = image_open binary)
        /\ (forall skipped,
              Forall (fun a => exists b, a = Artifact false b) skipped ->
              generate client prompt = skipped
              \/ (exists rest, generate client prompt = (skipped ++ Failure :: rest)%list) ->
              result = None)).
Proof.
  unfold generate_image. split; [intros ->; reflexivity|].
  intros Hkey. apply String.eqb_neq in Hkey. rewrite Hkey.
  do 2 eexists. split; [reflexivity|]. split; [|split; [reflexivity|split]].
  - intros held ->. reflexivity.
  - intros skipped binary rest Hskipped ->.
    now rewrite first_image_skips.
  - intros skipped Hskipped [-> | [rest ->]].
    + rewrite <- (app_nil_r skipped). now rewrite first_image_skips.
    + now rewrite first_image_skips.
Qed.

End Images.

Lemma generate_image_returns_first_image_witness :
  generate_image string "key" unit (fun _ _ => tt) 20
    (fun _ _ => [Artifact false "text"; Artifact true "png"; Failure])
    (fun binary => Some binary) None "a cat"
  = Some (Some "png", tt).
Proof.
  destruct (generate_image_returns_first_image string "key" unit (fun _ _ => tt) 20
              (fun _ _ => [Artifact false "text"; Artifact true "png"; Failure])
              (fun binary => Some binary) None "a cat")
    as [_ Hkey].
  destruct Hkey as (result & client & Hrun & _ & _ & Hfirst & _); [discriminate|].
  rewrite Hrun. destruct client.
  rewrite (Hfirst [Artifact false "text"] "png" [Failure]); [reflexivity | | reflexivity].
  repeat constructor. now exists "text".
Defined.
